(** * The micro-agent of agenthub/micro/agent.py

    A shallow embedding of [parse_response] (the extractor that finds the
    first brace-balanced region of a completion and decodes it) and of the
    workflow driver of [MicroAgent] ([__init__], [step], [step_workflow],
    [update_previous_workflow_step], [validate_observation],
    [prompt_to_action]), followed by the properties of the two.

    Python exceptions are values of [exn]; a computation that may raise
    returns [result A]; the methods of [MicroAgent] thread the agent object
    and the [State] argument through the monad [M], so that a mutation made
    before an exception is raised stays visible afterwards, as in Python. *)

From Stdlib Require Import ZArith Lia Strings.String Strings.Ascii.
From stdpp Require Import gmap strings list fin_maps.

Set Warnings "-register-all".
Local Open Scope string_scope.
Local Open Scope list_scope.
Local Open Scope stdpp_scope.
Local Open Scope Z_scope.

(** ** Data *)

(** Data read from YAML or JSON (floats are not needed by the driver). *)
Inductive value :=
| VNone
| VBool (b : bool)
| VInt (n : Z)
| VStr (s : string)
| VList (l : list value)
| VDict (d : gmap string value).

(** The exception classes the module raises or lets through.  The second
    argument of [LLMOutputError] is [__cause__], set by [raise ... from e]. *)
Inductive exn :=
| JSONDecodeError (msg : string)
| LLMOutputError (msg : string) (cause : option exn)
| ValueError (msg : string)
| KeyError (key : string)
| TypeError (msg : string)
| IndexError (msg : string)
| OtherError (cls msg : string).

Definition result (A : Type) : Type := exn + A.

(** An [Action] object: the two classes the driver instantiates itself, and
    any other instance, of which the driver reads the [action] attribute. *)
Inductive Action :=
| AgentFinishAction
| AgentRejectAction
| ActionObject (action : string) (args : value).

(** An [Observation]: the driver asks [isinstance(obs, CmdOutputObservation)]
    and reads [exit_code]. *)
Inductive Observation :=
| CmdOutputObservation (exit_code : Z) (content : string)
| OtherObservation (content : string).

(** The part of the controller's [State] the agent touches. *)
Record State := mkState {
  updated_info : list (Action * Observation);
  num_of_chars : Z
}.

(** One entry of [agent_definition['workflow']]: a mapping in which the keys
    [name] and [do] may be absent. *)
Record StepDefinition := mkStep {
  step_name : option string;
  step_do : option (gmap string value)
}.

(** [agent_definition]: a mapping in which the keys [name] and [workflow] may
    be absent. *)
Record AgentDefinition := mkDefinition {
  def_name : option string;
  def_workflow : option (list StepDefinition)
}.

(** The instance attributes of a [MicroAgent]. *)
Record MicroAgent := mkAgent {
  agent_definition : AgentDefinition;
  prompt : string;
  delegates : gmap string AgentDefinition;
  workflow_step : Z;
  workflow_data : gmap string Observation
}.

(** What the module imports and calls but does not define. *)
Class Collaborators := {
  (** [json.loads] on a [str]: the decoded value, or [JSONDecodeError]. *)
  json_loads : string -> result value;
  (** [opendevin.events.action.action_from_dict]. *)
  action_from_dict : value -> result Action;
  (** The value of the class attribute [action] of [AgentFinishAction] and of
      [AgentRejectAction]. *)
  finish_action_type : string;
  reject_action_type : string;
  (** [Environment(loader=BaseLoader).from_string(prompt).render(state=...,
      instructions=..., to_json=..., delegates=..., inputs=...)]. *)
  render : value -> State -> gmap string AgentDefinition -> value -> result string;
  (** [self.llm.completion(messages=[{content, role: user}])] followed by
      [['choices'][0]['message']['content']]. *)
  completion : string -> result string;
  (** [registry.all_microagents]. *)
  all_microagents : gmap string AgentDefinition
}.

(** ** Python primitives *)

Module Py.

Definition len (s : string) : Z := Z.of_nat (String.length s).

(** Bound of a slice: a negative index counts from the end, and the result
    is clamped to [0 .. n]. *)
Definition clamp (k n : Z) : Z :=
  if k <? 0 then Z.max 0 (k + n) else Z.min k n.

(** [s[lo:hi]]. *)
Definition slice (s : string) (lo hi : Z) : string :=
  let n := len s in
  let a := clamp lo n in
  let b := clamp hi n in
  substring (Z.to_nat a) (Z.to_nat (b - a)) s.

(** [l[k]] on a list: a negative index counts from the end; out of range
    raises [IndexError]. *)
Definition index {A} (l : list A) (k : Z) : result A :=
  let n := Z.of_nat (length l) in
  let j := if k <? 0 then k + n else k in
  if (0 <=? j) && (j <? n) then
    match l !! Z.to_nat j with
    | Some x => inr x
    | None => inl (IndexError "list index out of range")
    end
  else inl (IndexError "list index out of range").

(** [d[k]] on a dict. *)
Definition getitem {A} (d : gmap string A) (k : string) : result A :=
  match d !! k with
  | Some x => inr x
  | None => inl (KeyError k)
  end.

(** [k in d] on a dict. *)
Definition contains {A} (d : gmap string A) (k : string) : bool :=
  match d !! k with Some _ => true | None => false end.

(** [len(v)] on a value. *)
Definition len_value (v : value) : result Z :=
  match v with
  | VStr s => inr (len s)
  | VList l => inr (Z.of_nat (length l))
  | VDict d => inr (Z.of_nat (size d))
  | _ => inl (TypeError "object has no len()")
  end.

(** [s == v] for a [str] [s]. *)
Definition str_eq (s : string) (v : value) : bool :=
  match v with
  | VStr t => String.eqb s t
  | _ => false
  end.

End Py.

(** ** parse_response *)

Definition open_brace : ascii := "{"%char.
Definition close_brace : ascii := "}"%char.

Definition msg_invalid_json : string :=
  "Invalid JSON in response. Please make sure the response is a valid JSON object.".
Definition msg_no_json : string :=
  "No valid JSON object found in response.".

(** What the last line of [parse_response] raises. *)
Definition no_object : result Action := inl (LLMOutputError msg_no_json None).

Section Extractor.
Context `{Collaborators}.

(** The [except json.JSONDecodeError as e] clause: that class is wrapped,
    every other exception leaves the function as it is. *)
Definition on_exception {A} (e : exn) : result A :=
  match e with
  | JSONDecodeError _ => inl (LLMOutputError msg_invalid_json (Some e))
  | _ => inl e
  end.

(** The body of the [try]: decode the candidate and build the action. *)
Definition decode_candidate (response : string) : result Action :=
  match json_loads response with
  | inl e => on_exception e
  | inr action_dict =>
      match action_from_dict action_dict with
      | inl e => on_exception e
      | inr action => inr action
      end
  end.

(** The [for i, char in enumerate(orig_response)] loop, from index [i] on,
    [rest] being [orig_response[i:]].  A [string] is the text in UTF-8; both
    delimiters are single bytes that occur in no longer sequence, so the
    slice between two of them is the same text whether positions count bytes
    or code points. *)
Fixpoint scan (orig_response rest : string) (i depth start : Z) : result Action :=
  match rest with
  | EmptyString => inl (LLMOutputError msg_no_json None)
  | String char rest' =>
      if Ascii.eqb char open_brace then
        let start := if depth =? 0 then i else start in
        scan orig_response rest' (i + 1) (depth + 1) start
      else if Ascii.eqb char close_brace then
        let depth := depth - 1 in
        if (depth =? 0) && negb (start =? -1) then
          decode_candidate (Py.slice orig_response start (i + 1))
        else scan orig_response rest' (i + 1) depth start
      else scan orig_response rest' (i + 1) depth start
  end.

Definition parse_response (orig_response : string) : result Action :=
  scan orig_response orig_response 0 0 (-1).

End Extractor.

(** ** The methods of MicroAgent *)

(** A method receives [self] and the [state] argument, may mutate both, and
    returns or raises. *)
Definition M (A : Type) : Type :=
  MicroAgent -> State -> result A * MicroAgent * State.

Definition ret {A} (x : A) : M A := fun self state => (inr x, self, state).

Definition raise {A} (e : exn) : M A := fun self state => (inl e, self, state).

Definition lift {A} (r : result A) : M A := fun self state => (r, self, state).

Definition bind {A B} (m : M A) (k : A -> M B) : M B :=
  fun self state =>
    match m self state with
    | (inr x, self', state') => k x self' state'
    | (inl e, self', state') => (inl e, self', state')
    end.

Notation "x <- m ;; k" := (bind m (fun x => k))
  (at level 100, m at level 99, k at level 200, right associativity).
Notation "m ;;; k" := (bind m (fun _ => k))
  (at level 100, k at level 200, right associativity).

Definition get_self : M MicroAgent := fun self state => (inr self, self, state).

Definition get_state : M State := fun self state => (inr state, self, state).

(** [self.workflow_step = k] *)
Definition set_workflow_step (k : Z) : M unit := fun self state =>
  (inr tt,
   mkAgent (agent_definition self) (prompt self) (delegates self) k
           (workflow_data self),
   state).

(** [self.workflow_data[name] = obs] *)
Definition set_workflow_data (name : string) (obs : Observation) : M unit :=
  fun self state =>
  (inr tt,
   mkAgent (agent_definition self) (prompt self) (delegates self)
           (workflow_step self) (<[name := obs]> (workflow_data self)),
   state).

(** [state.num_of_chars += k] *)
Definition add_num_of_chars (k : Z) : M unit := fun self state =>
  (inr tt, self, mkState (updated_info state) (num_of_chars state + k)).

(** [self.agent_definition['workflow']] *)
Definition workflow_of (self : MicroAgent) : result (list StepDefinition) :=
  match def_workflow (agent_definition self) with
  | Some wf => inr wf
  | None => inl (KeyError "workflow")
  end.

(** [prev_step['do']] and [prev_step['name']] *)
Definition do_of (step : StepDefinition) : result (gmap string value) :=
  match step_do step with
  | Some do_ => inr do_
  | None => inl (KeyError "do")
  end.

Definition name_of (step : StepDefinition) : result string :=
  match step_name step with
  | Some name => inr name
  | None => inl (KeyError "name")
  end.

Definition validate_observation (action : Action) (obs : Observation) : bool :=
  match obs with
  | CmdOutputObservation exit_code _ => exit_code =? 0
  | _ => true
  end.

Definition msg_no_name : string := "Agent definition must contain a name".
Definition msg_no_action_or_prompt : string :=
  "Step must contain either an action or a prompt".

Section Driver.
Context `{Collaborators}.

(** The attribute [action.action]. *)
Definition action_attr (a : Action) : string :=
  match a with
  | AgentFinishAction => finish_action_type
  | AgentRejectAction => reject_action_type
  | ActionObject action _ => action
  end.

(** [MicroAgent(llm)] for the subclass whose class attributes are
    [agent_definition] and [prompt]. *)
Definition __init__ (agent_definition : AgentDefinition) (prompt : string)
  : result MicroAgent :=
  match def_name agent_definition with
  | None => inl (ValueError msg_no_name)
  | Some name =>
      let delegates := all_microagents in
      match delegates !! name with
      | None => inl (KeyError name)
      | Some _ =>
          inr (mkAgent agent_definition prompt (delete name delegates) 0 ∅)
      end
  end.

Definition prompt_to_action (prompt : value) (inputs : value) : M Action :=
  self <- get_self ;;
  state <- get_state ;;
  rendered <- lift (render prompt state (delegates self) inputs) ;;
  action_resp <- lift (completion rendered) ;;
  n <- lift (Py.len_value prompt) ;;
  add_num_of_chars (n + Py.len action_resp) ;;;
  lift (parse_response action_resp).

(** The [for action, obs in state.updated_info] loop. *)
Fixpoint update_loop (prev_step : StepDefinition)
    (info : list (Action * Observation)) : M bool :=
  match info with
  | [] => ret true
  | (action, obs) :: info' =>
      do_ <- lift (do_of prev_step) ;;
      if Py.contains do_ "action" then
        do_ <- lift (do_of prev_step) ;;
        expected <- lift (Py.getitem do_ "action") ;;
        if Py.str_eq (action_attr action) expected then
          name <- lift (name_of prev_step) ;;
          set_workflow_data name obs ;;;
          if negb (validate_observation action obs) then ret false
          else update_loop prev_step info'
        else update_loop prev_step info'
      else update_loop prev_step info'
  end.

Definition update_previous_workflow_step : M bool :=
  self <- get_self ;;
  wf <- lift (workflow_of self) ;;
  prev_step <- lift (Py.index wf (workflow_step self - 1)) ;;
  state <- get_state ;;
  update_loop prev_step (updated_info state).

Definition step_workflow : M Action :=
  self <- get_self ;;
  wf <- lift (workflow_of self) ;;
  if workflow_step self >=? Z.of_nat (length wf) then ret AgentFinishAction
  else
    ok <- (if workflow_step self >? 0 then update_previous_workflow_step
           else ret true) ;;
    if negb ok then ret AgentRejectAction
    else
      self <- get_self ;;
      wf <- lift (workflow_of self) ;;
      step <- lift (Py.index wf (workflow_step self)) ;;
      set_workflow_step (workflow_step self + 1) ;;;
      let do_ := default ∅ (step_do step) in
      if Py.contains do_ "action" then lift (action_from_dict (VDict do_))
      else if Py.contains do_ "prompt" then
        prompt <- lift (Py.getitem do_ "prompt") ;;
        let inputs := default (VDict ∅) (do_ !! "inputs") in
        prompt_to_action prompt inputs
      else raise (ValueError msg_no_action_or_prompt).

Definition step : M Action :=
  self <- get_self ;;
  match def_workflow (agent_definition self) with
  | Some _ => step_workflow
  | None => prompt_to_action (VStr (prompt self)) (VDict ∅)
  end.

End Driver.

(** Consecutive calls of [step_workflow] on one agent, the controller passing
    the [State] of each turn: the returned (or raised) results in order, and
    the agent after the last call. *)
Fixpoint run `{Collaborators} (self : MicroAgent) (feeds : list State)
  : list (result Action) * MicroAgent :=
  match feeds with
  | [] => ([], self)
  | state :: feeds' =>
      let '(r, self', _) := step_workflow self state in
      let '(rs, self'') := run self' feeds' in
      (r :: rs, self'')
  end.

(** ** Vocabulary of the properties *)

(** Prose without delimiters. *)
Fixpoint brace_free (s : string) : bool :=
  match s with
  | EmptyString => true
  | String c s' =>
      negb (Ascii.eqb c open_brace) && negb (Ascii.eqb c close_brace)
      && brace_free s'
  end.

Fixpoint no_open_brace (s : string) : bool :=
  match s with
  | EmptyString => true
  | String c s' => negb (Ascii.eqb c open_brace) && no_open_brace s'
  end.

(** Entered at [depth], the text returns to depth zero at its last character
    and not before. *)
Fixpoint closes_at_end (depth : Z) (s : string) : bool :=
  match s with
  | EmptyString => false
  | String c s' =>
      if Ascii.eqb c open_brace then closes_at_end (depth + 1) s'
      else if Ascii.eqb c close_brace then
        if depth - 1 =? 0 then String.eqb s' EmptyString
        else closes_at_end (depth - 1) s'
      else closes_at_end depth s'
  end.

(** A balanced region: an opening delimiter, then text that returns to depth
    zero exactly at the end. *)
Definition balanced_region (s : string) : bool :=
  match s with
  | EmptyString => false
  | String c s' => Ascii.eqb c open_brace && closes_at_end 1 s'
  end.

(** Entered at [depth], the depth never rises above zero. *)
Fixpoint stays_nonpositive (depth : Z) (s : string) : bool :=
  match s with
  | EmptyString => true
  | String c s' =>
      if Ascii.eqb c open_brace then
        (depth + 1 <=? 0) && stays_nonpositive (depth + 1) s'
      else if Ascii.eqb c close_brace then stays_nonpositive (depth - 1) s'
      else stays_nonpositive depth s'
  end.

(** What one character adds to the depth. *)
Definition delta (c : ascii) : Z :=
  if Ascii.eqb c open_brace then 1
  else if Ascii.eqb c close_brace then -1 else 0.

(** The depth after a text, by counting: opening minus closing delimiters. *)
Fixpoint depth_of (l : list ascii) : Z :=
  match l with
  | [] => 0
  | c :: l' => delta c + depth_of l'
  end.

(** An opening delimiter met at depth zero at some index below [i]. *)
Definition opened_before (l : list ascii) (i : nat) : bool :=
  existsb (fun j => bool_decide (l !! j = Some open_brace)
                    && (depth_of (take j l) =? 0)) (seq 0 i).

(** A balanced region closes at index [i]: a closing delimiter that brings
    the depth back to zero after an opening delimiter met at depth zero. *)
Definition region_closes_at (l : list ascii) (i : nat) : bool :=
  bool_decide (l !! i = Some close_brace)
  && (depth_of (take (S i) l) =? 0)
  && opened_before l i.

Definition no_region_closes (s : string) : bool :=
  let l := list_ascii_of_string s in
  forallb (fun i => negb (region_closes_at l i)) (seq 0 (length l)).

Section Vocabulary.
Context `{Collaborators}.

(** The pair's command carries the discriminator of the step's fixed
    action. *)
Definition matches (prev_step : StepDefinition) (entry : Action * Observation)
  : bool :=
  match step_do prev_step with
  | Some do_ =>
      match do_ !! "action" with
      | Some expected => Py.str_eq (action_attr entry.1) expected
      | None => false
      end
  | None => false
  end.

(** The two halves of an unfinished [step_workflow] call: the validation
    that precedes the step, and what is done with the step once the step
    index is incremented. *)
Definition validation (self : MicroAgent) : M bool :=
  if workflow_step self >? 0 then update_previous_workflow_step else ret true.

Definition perform (step : StepDefinition) : M Action :=
  let do_ := default ∅ (step_do step) in
  if Py.contains do_ "action" then lift (action_from_dict (VDict do_))
  else if Py.contains do_ "prompt" then
    prompt <- lift (Py.getitem do_ "prompt") ;;
    prompt_to_action prompt (default (VDict ∅) (do_ !! "inputs"))
  else raise (ValueError msg_no_action_or_prompt).

Definition matching (prev_step : StepDefinition)
    (info : list (Action * Observation)) : list (Action * Observation) :=
  filter (fun entry => matches prev_step entry = true) info.

End Vocabulary.

Definition acceptable (entry : Action * Observation) : bool :=
  validate_observation entry.1 entry.2.

(** The pairs up to and including the first one that is not acceptable. *)
Fixpoint through_first_failure (pairs : list (Action * Observation))
  : list (Action * Observation) :=
  match pairs with
  | [] => []
  | entry :: pairs' =>
      entry :: (if acceptable entry then through_first_failure pairs' else [])
  end.

(** Writing the outcome of each pair, in order, under one step name. *)
Definition record_all (name : string) (pairs : list (Action * Observation))
    (data : gmap string Observation) : gmap string Observation :=
  foldl (fun d entry => <[name := entry.2]> d) data pairs.

Definition with_workflow_data (self : MicroAgent)
    (data : gmap string Observation) : MicroAgent :=
  mkAgent (agent_definition self) (prompt self) (delegates self)
          (workflow_step self) data.

Definition with_workflow_step (self : MicroAgent) (k : Z) : MicroAgent :=
  mkAgent (agent_definition self) (prompt self) (delegates self) k
          (workflow_data self).

(** A step with a fixed action that the factory turns into [a]. *)
Definition fixed_command `{Collaborators} (step : StepDefinition) (a : Action)
  : Prop :=
  exists do_, step_do step = Some do_
              /\ Py.contains do_ "action" = true
              /\ action_from_dict (VDict do_) = inr a.

(** ** Concrete collaborators for the examples *)

Module Demo.

Definition dq : string := String "034"%char EmptyString.

(** The text [{"action":"run","command":"ls"}]. *)
Definition run_ls_text : string :=
  "{" +:+ dq +:+ "action" +:+ dq +:+ ":" +:+ dq +:+ "run" +:+ dq +:+ ","
  +:+ dq +:+ "command" +:+ dq +:+ ":" +:+ dq +:+ "ls" +:+ dq +:+ "}".

(** The text [{"action":"finish"}]. *)
Definition finish_text : string :=
  "{" +:+ dq +:+ "action" +:+ dq +:+ ":" +:+ dq +:+ "finish" +:+ dq +:+ "}".

(** The text [{"a": {"b": 1}}]. *)
Definition nested_text : string :=
  "{" +:+ dq +:+ "a" +:+ dq +:+ ": {" +:+ dq +:+ "b" +:+ dq +:+ ": 1}}".

(** The text [{"b": 1}]. *)
Definition inner_text : string :=
  "{" +:+ dq +:+ "b" +:+ dq +:+ ": 1}".

(** The text [{"x":1}]. *)
Definition x_text : string := "{" +:+ dq +:+ "x" +:+ dq +:+ ":1}".

Definition run_ls_dict : gmap string value :=
  <["action" := VStr "run"]> (<["command" := VStr "ls"]> ∅).

(** A decoder that agrees with [json.loads] on the texts above and on
    [{}], and rejects the other texts it is given in the examples (none of
    them is JSON). *)
Definition demo_json_loads (s : string) : result value :=
  if String.eqb s "{}" then inr (VDict ∅)
  else if String.eqb s run_ls_text then inr (VDict run_ls_dict)
  else if String.eqb s finish_text then
    inr (VDict (<["action" := VStr "finish"]> ∅))
  else if String.eqb s nested_text then
    inr (VDict (<["a" := VDict (<["b" := VInt 1]> ∅)]> ∅))
  else if String.eqb s inner_text then inr (VDict (<["b" := VInt 1]> ∅))
  else if String.eqb s x_text then inr (VDict (<["x" := VInt 1]> ∅))
  else inl (JSONDecodeError "Expecting property name enclosed in double quotes").

(** A factory: the discriminator is the entry [action]; the rest of the
    mapping is kept as the command's fields. *)
Definition demo_action_from_dict (v : value) : result Action :=
  match v with
  | VDict d =>
      match d !! "action" with
      | Some (VStr kind) =>
          if String.eqb kind "finish" then inr AgentFinishAction
          else if String.eqb kind "reject" then inr AgentRejectAction
          else inr (ActionObject kind (VDict (delete "action" d)))
      | _ => inl (KeyError "action")
      end
  | _ => inl (TypeError "action must be a dictionary")
  end.

(** A renderer that returns the template unchanged. *)
Definition demo_render (prompt : value) (state : State)
    (delegates : gmap string AgentDefinition) (inputs : value)
  : result string :=
  match prompt with
  | VStr s => inr s
  | _ => inl (TypeError "Can't compile non template nodes")
  end.

(** A completion service that always answers with the finish command. *)
Definition demo_completion (rendered : string) : result string :=
  inr ("Done. " +:+ finish_text).

Definition step_run : StepDefinition := mkStep (Some "s0") (Some run_ls_dict).

Definition step_say_done : StepDefinition :=
  mkStep (Some "s1") (Some (<["prompt" := VStr "say done"]> ∅)).

(** A step whose mapping has both an action and a prompt. *)
Definition step_both : StepDefinition :=
  mkStep (Some "s2")
         (Some (<["prompt" := VStr "say done"]> run_ls_dict)).

(** A step whose mapping has neither. *)
Definition step_empty : StepDefinition := mkStep (Some "s3") (Some ∅).

Definition runner : AgentDefinition :=
  mkDefinition (Some "runner") (Some [step_run; step_say_done]).

Definition twice : AgentDefinition :=
  mkDefinition (Some "twice") (Some [step_run; step_run]).

Definition broken : AgentDefinition :=
  mkDefinition (Some "broken") (Some [step_empty]).

Definition nameless : AgentDefinition :=
  mkDefinition None (Some [step_run]).

Definition registry : gmap string AgentDefinition :=
  <["runner" := runner]> (<["twice" := twice]> (<["broken" := broken]> ∅)).

#[export] Instance demo : Collaborators := {|
  json_loads := demo_json_loads;
  action_from_dict := demo_action_from_dict;
  finish_action_type := "finish";
  reject_action_type := "reject";
  render := demo_render;
  completion := demo_completion;
  all_microagents := registry
|}.

Definition run_ls : Action :=
  ActionObject "run" (VDict (<["command" := VStr "ls"]> ∅)).

Definition ok_output : Observation := CmdOutputObservation 0 "hi".
Definition failed_output : Observation := CmdOutputObservation 1 "not found".

(** The agents [__init__] builds from [twice], [runner] and [broken]. *)
Definition twice_agent : MicroAgent :=
  mkAgent twice "do it" (delete "twice" registry) 0 ∅.
Definition runner_agent : MicroAgent :=
  mkAgent runner "do it" (delete "runner" registry) 0 ∅.
Definition broken_agent : MicroAgent :=
  mkAgent broken "do it" (delete "broken" registry) 0 ∅.

(** An agent on a one-step procedure whose step has an action and a
    prompt. *)
Definition both_agent : MicroAgent :=
  mkAgent (mkDefinition (Some "both") (Some [step_both])) "do it" registry 0 ∅.

(** [twice_agent] after its first call, and after both steps. *)
Definition twice_at_1 : MicroAgent := with_workflow_step twice_agent 1.
Definition twice_at_2 : MicroAgent :=
  with_workflow_step
    (with_workflow_data twice_agent (<["s0" := CmdOutputObservation 0 "hi"]> ∅))
    2.

Definition quiet : State := mkState [] 0.
Definition run_succeeded : State := mkState [(run_ls, ok_output)] 0.
Definition run_failed : State := mkState [(run_ls, failed_output)] 0.
Definition run_failed_then_succeeded : State :=
  mkState [(run_ls, failed_output); (run_ls, ok_output)] 0.

End Demo.

(** ** More vocabulary: the candidate search and the driver's invariants *)

(** The search of [parse_response] without the decoding: the bounds of the
    slice the loop of [scan] hands to the decoder, if it hands one. *)
Fixpoint find_candidate (rest : string) (i depth start : Z) : option (Z * Z) :=
  match rest with
  | EmptyString => None
  | String char rest' =>
      if Ascii.eqb char open_brace then
        let start := if depth =? 0 then i else start in
        find_candidate rest' (i + 1) (depth + 1) start
      else if Ascii.eqb char close_brace then
        let depth := depth - 1 in
        if (depth =? 0) && negb (start =? -1) then Some (start, i + 1)
        else find_candidate rest' (i + 1) depth start
      else find_candidate rest' (i + 1) depth start
  end.

(** Every key of [workflow_data] is the name of a step the step index has
    passed. *)
Definition data_of_passed_steps (wf : list StepDefinition) (self : MicroAgent)
  : Prop :=
  forall key, is_Some (workflow_data self !! key) ->
    exists j step, Z.of_nat j < workflow_step self
                   /\ wf !! j = Some step
                   /\ step_name step = Some key.

(** ** GithubPushAction (opendevin/action/github.py) *)

Module Github.

(** The observations of [opendevin.observation] that [run] tells apart. *)
Inductive Observation :=
| CmdOutputObservation (exit_code : Z) (content : string)
| AgentErrorObservation (content : string)
| AgentMessageObservation (content : string)
| OtherObservation (content : string).

Record GithubPushAction := mkPush {
  owner : string;
  repo : string;
  branch : string
}.

Definition msg_no_token : string :=
  "OPENDEVIN_GITHUB_TOKEN is not set in the environment variables".

(** The negation of
    [not isinstance(result, CmdOutputObservation) or result.exit_code != 0]. *)
Definition succeeded (result : Observation) : bool :=
  match result with
  | CmdOutputObservation exit_code _ => exit_code =? 0
  | _ => false
  end.

(** [''.join(['opendevin_temp_'] + choices)] *)
Definition remote_name (choices : list string) : string :=
  String.concat EmptyString ("opendevin_temp_" :: choices).

Definition add_command (self : GithubPushAction) (github_token random_remote : string)
  : string :=
  "git remote add " +:+ random_remote +:+ " "
  +:+ ("https://" +:+ github_token +:+ "@github.com/" +:+ owner self +:+ "/"
       +:+ repo self +:+ ".git").

Definition push_command (self : GithubPushAction) (random_remote : string)
  : string :=
  "git push " +:+ random_remote +:+ " " +:+ branch self.

Definition remove_command (random_remote : string) : string :=
  "git remote remove " +:+ random_remote.

(** [GithubPushAction.run].  [github_token] is
    [os.environ.get('OPENDEVIN_GITHUB_TOKEN')], [choices] is what
    [random.choices(string.ascii_lowercase, k=5)] returns, and [run_command]
    is [controller.action_manager.run_command(_, background=False)], which
    answers a command knowing the commands it has run before.  The result is
    the returned observation and the commands handed to [run_command], in
    order. *)
Definition run (self : GithubPushAction) (github_token : option string)
    (choices : list string) (run_command : list string -> string -> Observation)
  : Observation * list string :=
  match github_token with
  | None => (AgentErrorObservation msg_no_token, [])
  | Some token =>
      if String.eqb token EmptyString then
        (AgentErrorObservation msg_no_token, [])
      else
        let random_remote := remote_name choices in
        let command1 := add_command self token random_remote in
        let set_url_result := run_command [] command1 in
        if negb (succeeded set_url_result) then (set_url_result, [command1])
        else
          let command2 := push_command self random_remote in
          let push_result := run_command [command1] command2 in
          let command3 := remove_command random_remote in
          let set_url_result := run_command [command1; command2] command3 in
          if negb (succeeded set_url_result) then
            (set_url_result, [command1; command2; command3])
          else (push_result, [command1; command2; command3])
  end.

End Github.

(** ** Singleton and finalize_config (opendevin/core/config.py) *)

Module Config.

(** [setattr(instance, key, value)] for each item of [kwargs], in order. *)
Definition setattrs (kwargs : list (string * value))
    (instance : gmap string value) : gmap string value :=
  foldl (fun inst item => <[item.1 := item.2]> inst) instance kwargs.

(** [Singleton.__call__] on the class [cls] with positional arguments [args]
    and keyword arguments [kwargs].  [instances] is [Singleton._instances],
    keyed by class (here its name), an instance being its attributes;
    [construct] is the call of [super().__call__] with the same arguments,
    the ordinary construction, which may itself register instances (a field
    default that is a singleton class) and may raise.  The result is the
    returned instance (or the exception) and [_instances] afterwards. *)
Definition Singleton_call
    (construct : list value -> list (string * value) ->
                 gmap string (gmap string value) ->
                 result (gmap string value) * gmap string (gmap string value))
    (cls : string) (args : list value) (kwargs : list (string * value))
    (instances : gmap string (gmap string value))
  : result (gmap string value) * gmap string (gmap string value) :=
  match instances !! cls with
  | None =>
      match construct args kwargs instances with
      | (inl e, instances') => (inl e, instances')
      | (inr instance, instances') =>
          (inr instance, <[cls := instance]> instances')
      end
  | Some instance =>
      let instance := setattrs kwargs instance in
      (inr instance, <[cls := instance]> instances)
  end.

(** [s.split(':')] *)
Fixpoint split_colon (s : string) : list string :=
  match s with
  | EmptyString => [EmptyString]
  | String c s' =>
      if Ascii.eqb c ":"%char then EmptyString :: split_colon s'
      else match split_colon s' with
           | part :: parts => String c part :: parts
           | [] => [String c EmptyString]
           end
  end.

(** [s.replace(old, new)]: every occurrence of [old], leftmost first and
    without overlap; an empty [old] matches before each character and at the
    end. *)
Fixpoint replace_empty (new s : string) : string :=
  new +:+ match s with
          | EmptyString => EmptyString
          | String c s' => String c (replace_empty new s')
          end.

Fixpoint replace_from (old new : string) (skip : nat) (s : string) : string :=
  match s with
  | EmptyString => EmptyString
  | String c s' =>
      match skip with
      | S k => replace_from old new k s'
      | O =>
          if String.prefix old s then
            new +:+ replace_from old new (String.length old - 1) s'
          else String c (replace_from old new 0 s')
      end
  end.

Definition replace (s old new : string) : string :=
  if String.eqb old EmptyString then replace_empty new s
  else replace_from old new 0 s.

(** The fields of [LLMConfig] and [AppConfig] that [finalize_config] reads
    or writes. *)
Record LLMConfig := mkLLM {
  base_url : option string;
  embedding_base_url : option string
}.

Record AppConfig := mkApp {
  llm : LLMConfig;
  workspace_base : string;
  workspace_mount_path : string;
  workspace_mount_path_in_sandbox : string;
  workspace_mount_rewrite : option string;
  cache_dir : string;
  sandbox_type : string;
  use_host_network : bool
}.

(** Truth of a [str | None]. *)
Definition truthy (o : option string) : bool :=
  match o with
  | Some s => negb (String.eqb s EmptyString)
  | None => false
  end.

(** The first statement of [finalize_config]: without a sandbox the mount
    path in the sandbox is the mount path. *)
Definition local_sandbox_path (config : AppConfig) : AppConfig :=
  if String.eqb (sandbox_type config) "local" then
    mkApp (llm config) (workspace_base config) (workspace_mount_path config)
          (workspace_mount_path config) (workspace_mount_rewrite config)
          (cache_dir config) (sandbox_type config) (use_host_network config)
  else config.

(** The second: the rewrite rule [old:new] applied to the workspace base, or
    to [cwd] (which is [os.getcwd()]) when the base is empty. *)
Definition rewrite_mount_path (cwd : string) (config : AppConfig)
  : result AppConfig :=
  match workspace_mount_rewrite config with
  | Some rewrite =>
      if String.eqb rewrite EmptyString then inr config
      else
        let base :=
          if String.eqb (workspace_base config) EmptyString then cwd
          else workspace_base config in
        let parts := split_colon rewrite in
        match Py.index parts 0 with
        | inl e => inl e
        | inr part0 =>
            match Py.index parts 1 with
            | inl e => inl e
            | inr part1 =>
                inr (mkApp (llm config) (workspace_base config)
                           (replace base part0 part1)
                           (workspace_mount_path_in_sandbox config)
                           (workspace_mount_rewrite config)
                           (cache_dir config) (sandbox_type config)
                           (use_host_network config))
            end
        end
  | None => inr config
  end.

(** The third: the embedding URL defaults to the base URL. *)
Definition default_embedding_url (config : AppConfig) : AppConfig :=
  match embedding_base_url (llm config) with
  | None =>
      mkApp (mkLLM (base_url (llm config)) (base_url (llm config)))
            (workspace_base config) (workspace_mount_path config)
            (workspace_mount_path_in_sandbox config)
            (workspace_mount_rewrite config) (cache_dir config)
            (sandbox_type config) (use_host_network config)
  | Some _ => config
  end.

(** [finalize_config(config)].  The result is the directory handed to
    [mkdir(parents=True, exist_ok=True)], if any, or the exception, and the
    configuration as the call leaves it; the warning that is logged on macOS
    changes nothing. *)
Definition finalize_config (cwd : string) (config : AppConfig)
  : result (option string) * AppConfig :=
  let config := local_sandbox_path config in
  match rewrite_mount_path cwd config with
  | inl e => (inl e, config)
  | inr config =>
      let config := default_embedding_url config in
      if String.eqb (cache_dir config) EmptyString then (inr None, config)
      else (inr (Some (cache_dir config)), config)
  end.



(** *** load_from_env *)

(** The annotations of the configuration classes: [str], [int], [bool],
    [float]; one of these with [| None]; anything else that is neither a
    union nor a class with annotations, such as [ClassVar[dict]], whose call
    raises [TypeError]. *)
Inductive scalar := TStr | TInt | TBool | TFloat.

Inductive ftype :=
| Plain (t : scalar)
| Optional (t : scalar)
| Opaque.

Section LoadFromEnv.

(** A float, [int(s)] and [float(s)] on a string ([None] for [ValueError]). *)
Variable F : Type.
Variable py_int : string -> option Z.
Variable py_float : string -> option F.

(** The value of a setting. *)
Inductive setting :=
| SNone
| SStr (s : string)
| SInt (n : Z)
| SBool (b : bool)
| SFloat (f : F).

(** An annotated attribute of a configuration object: a setting with its
    annotation, or (the annotation being a class with annotations) a nested
    configuration object with its own annotated attributes. *)
Inductive field :=
| Attr (name : string) (ty : ftype) (v : setting)
| Child (name : string) (sub : list field).

(** [c.upper()] on an ASCII character. *)
Definition upper_ascii (c : ascii) : ascii :=
  let n := nat_of_ascii c in
  if (97 <=? n)%nat && (n <=? 122)%nat then ascii_of_nat (n - 32) else c.

(** [s.upper()] on an ASCII string. *)
Fixpoint upper (s : string) : string :=
  match s with
  | EmptyString => EmptyString
  | String c s' => String (upper_ascii c) (upper s')
  end.

(** [field_type(value)] for a value of the environment, after
    [get_optional_type] on a union; [None] when the call raises [ValueError]
    or [TypeError]. *)
Definition cast (ty : ftype) (value : string) : option setting :=
  match ty with
  | Plain TStr | Optional TStr => Some (SStr value)
  | Plain TInt | Optional TInt => SInt <$> py_int value
  | Plain TBool | Optional TBool => Some (SBool (negb (String.eqb value EmptyString)))
  | Plain TFloat | Optional TFloat => SFloat <$> py_float value
  | Opaque => None
  end.

(** One turn of the loop of [set_attr_from_env], on one annotated attribute;
    the environment maps names to strings, as [os.environ] does. *)
Fixpoint set_attr (env : gmap string string) (prefix : string) (f : field)
  : field :=
  match f with
  | Child name sub => Child name (map (set_attr env (name +:+ "_")) sub)
  | Attr name ty v =>
      match env !! upper (prefix +:+ name) with
      | Some value =>
          match cast ty value with
          | Some cast_value => Attr name ty cast_value
          | None => Attr name ty v
          end
      | None => Attr name ty v
      end
  end.

Definition set_attr_from_env (env : gmap string string) (sub_config : list field)
    (prefix : string) : list field :=
  map (set_attr env prefix) sub_config.

Definition load_from_env (config : list field) (env : gmap string string)
  : list field :=
  set_attr_from_env env config EmptyString.

(** The names and annotations of a configuration, without the values. *)
Fixpoint shape (f : field) : field :=
  match f with
  | Attr name ty _ => Attr name ty SNone
  | Child name sub => Child name (map shape sub)
  end.

End LoadFromEnv.

End Config.

(** ** Strings and slices *)

Lemma append_cons (c : ascii) (s t : string) :
  String c s +:+ t = String c (s +:+ t).
Proof. reflexivity. Qed.

Lemma append_empty (t : string) : EmptyString +:+ t = t.
Proof. reflexivity. Qed.

Lemma len_cons (c : ascii) (s : string) : Py.len (String c s) = 1 + Py.len s.
Proof. unfold Py.len. cbn [String.length]. lia. Qed.

Lemma len_nonneg (s : string) : 0 <= Py.len s.
Proof. unfold Py.len. lia. Qed.

Lemma len_append (s t : string) : Py.len (s +:+ t) = Py.len s + Py.len t.
Proof.
  induction s as [|c s IH].
  - rewrite append_empty. unfold Py.len at 2. cbn. lia.
  - rewrite append_cons, !len_cons, IH. lia.
Qed.

Lemma substring_skip (pre s : string) (m : nat) :
  substring (String.length pre) m (pre +:+ s) = substring 0 m s.
Proof. induction pre as [|c pre IH]; [reflexivity | exact IH]. Qed.

Lemma substring_prefix (s t : string) :
  substring 0 (String.length s) (s +:+ t) = s.
Proof.
  induction s as [|c s IH].
  - rewrite append_empty. destruct t; reflexivity.
  - rewrite append_cons. cbn [String.length substring]. now rewrite IH.
Qed.

(** The slice that [parse_response] takes when the region [obj] starts after
    [pre]. *)
Lemma slice_middle (pre obj post : string) :
  Py.slice (pre +:+ obj +:+ post) (Py.len pre) (Py.len pre + Py.len obj) = obj.
Proof.
  unfold Py.slice, Py.clamp. rewrite !len_append.
  pose proof (len_nonneg pre). pose proof (len_nonneg obj).
  pose proof (len_nonneg post).
  destruct (Z.ltb_spec (Py.len pre) 0); [lia|].
  destruct (Z.ltb_spec (Py.len pre + Py.len obj) 0); [lia|].
  rewrite (Z.min_l (Py.len pre)) by lia.
  rewrite (Z.min_l (Py.len pre + Py.len obj)) by lia.
  replace (Py.len pre + Py.len obj - Py.len pre) with (Py.len obj) by lia.
  unfold Py.len. rewrite !Nat2Z.id.
  rewrite substring_skip. apply substring_prefix.
Qed.

(** ** The scan of parse_response *)

Section ExtractorFacts.
Context `{Collaborators}.

(** Prose is skipped: neither the depth nor the start changes. *)
Lemma scan_prose (orig pre rest : string) (i depth start : Z) :
  brace_free pre = true ->
  scan orig (pre +:+ rest) i depth start
  = scan orig rest (i + Py.len pre) depth start.
Proof.
  revert i. induction pre as [|c pre IH]; intros i Hfree.
  - rewrite append_empty. f_equal. unfold Py.len. cbn. lia.
  - cbn [brace_free] in Hfree.
    apply andb_prop in Hfree as [Hc Hfree].
    apply andb_prop in Hc as [Ho Hcl].
    apply negb_true_iff in Ho, Hcl.
    rewrite append_cons. cbn [scan]. rewrite Ho, Hcl.
    rewrite IH by assumption. rewrite len_cons. f_equal. lia.
Qed.

(** Inside an open region the scan runs to the closing delimiter that
    brings the depth back to zero and decodes the slice that ends there. *)
Lemma scan_region (orig body post : string) (i depth start : Z) :
  closes_at_end depth body = true ->
  1 <= depth ->
  start <> -1 ->
  scan orig (body +:+ post) i depth start
  = decode_candidate (Py.slice orig start (i + Py.len body)).
Proof.
  revert i depth. induction body as [|c body IH]; intros i depth Hc Hd Hs.
  - discriminate.
  - rewrite append_cons. cbn [scan closes_at_end] in *.
    rewrite len_cons.
    destruct (Ascii.eqb c open_brace).
    + destruct (Z.eqb_spec depth 0); [lia|].
      rewrite IH by (assumption || lia). do 2 f_equal; lia.
    + destruct (Ascii.eqb c close_brace).
      * destruct (Z.eqb_spec (depth - 1) 0) as [Hz|Hz].
        -- apply String.eqb_eq in Hc. subst body.
           destruct (Z.eqb_spec start (-1)); [contradiction|].
           cbn [negb andb]. do 2 f_equal; unfold Py.len; cbn; lia.
        -- cbn [andb]. rewrite IH by (assumption || lia). do 2 f_equal; lia.
      * rewrite IH by (assumption || lia). do 2 f_equal; lia.
Qed.

(** The first balanced region after brace-free prose is the candidate, and
    nothing after it is looked at. *)
Lemma parse_response_region (pre obj post : string) :
  brace_free pre = true ->
  balanced_region obj = true ->
  parse_response (pre +:+ obj +:+ post) = decode_candidate obj.
Proof.
  intros Hpre Hobj. unfold parse_response.
  rewrite scan_prose by assumption.
  destruct obj as [|c body]; [discriminate|].
  cbn [balanced_region] in Hobj. apply andb_prop in Hobj as [Hc Hbody].
  rewrite append_cons. cbn [scan]. rewrite Hc. cbn [Z.eqb].
  pose proof (len_nonneg pre).
  rewrite scan_region by (assumption || lia).
  f_equal.
  replace (0 + Py.len pre + 1 + Py.len body)
    with (Py.len pre + Py.len (String c body)) by (rewrite len_cons; lia).
  replace (0 + Py.len pre) with (Py.len pre) by lia.
  rewrite <- append_cons. apply slice_middle.
Qed.

(** Text without an opening delimiter never records a start. *)
Lemma scan_no_open (orig rest : string) (i depth : Z) :
  no_open_brace rest = true ->
  scan orig rest i depth (-1) = no_object.
Proof.
  revert i depth. induction rest as [|c rest IH]; intros i depth Hno.
  - reflexivity.
  - cbn [no_open_brace] in Hno. apply andb_prop in Hno as [Hc Hno].
    apply negb_true_iff in Hc. cbn [scan]. rewrite Hc.
    destruct (Ascii.eqb c close_brace).
    + cbn [Z.eqb negb]. rewrite andb_false_r. now apply IH.
    + now apply IH.
Qed.

(** While the depth stays at or below zero no start is recorded. *)
Lemma scan_nonpositive (orig rest : string) (i depth : Z) :
  stays_nonpositive depth rest = true ->
  depth <= 0 ->
  scan orig rest i depth (-1) = no_object.
Proof.
  revert i depth. induction rest as [|c rest IH]; intros i depth Hst Hd.
  - reflexivity.
  - cbn [stays_nonpositive scan] in *.
    destruct (Ascii.eqb c open_brace).
    + apply andb_prop in Hst as [Hle Hst]. apply Z.leb_le in Hle.
      destruct (Z.eqb_spec depth 0); [lia|].
      apply IH; [assumption | lia].
    + destruct (Ascii.eqb c close_brace).
      * cbn [Z.eqb negb]. rewrite andb_false_r. apply IH; [assumption | lia].
      * now apply IH.
Qed.

End ExtractorFacts.

(** ** The scan against the depth obtained by counting *)

Lemma depth_of_snoc (l : list ascii) (c : ascii) :
  depth_of (l ++ [c]) = depth_of l + delta c.
Proof.
  induction l as [|x l IH]; cbn [depth_of app].
  - unfold delta. lia.
  - rewrite IH. lia.
Qed.

Lemma take_snoc (l r : list ascii) (c : ascii) :
  take (S (length l)) (l ++ c :: r) = (l ++ [c])%list.
Proof.
  rewrite (cons_middle c l r), app_assoc.
  replace (S (length l)) with (length (l ++ [c]))
    by (rewrite length_app; cbn; lia).
  apply take_app_length.
Qed.

Lemma opened_before_S (l : list ascii) (n : nat) :
  opened_before l (S n)
  = opened_before l n
    || (bool_decide (l !! n = Some open_brace) && (depth_of (take n l) =? 0)).
Proof.
  unfold opened_before. rewrite seq_S, existsb_app. cbn [existsb plus].
  now rewrite orb_false_r.
Qed.

Lemma close_is_not_open : Ascii.eqb close_brace open_brace = false.
Proof. reflexivity. Qed.

Section CountingFacts.
Context `{Collaborators}.

(** The loop invariant: [depth] is the counted depth of the text read so
    far, and a start is recorded exactly when an opening delimiter has been
    met at depth zero.  If no region closes in what is left, the loop runs
    to the end. *)
Lemma scan_counting (orig rest : string) (read : list ascii) (start : Z) :
  let l := (read ++ list_ascii_of_string rest)%list in
  (start =? -1) = negb (opened_before l (length read)) ->
  (forall k, (length read <= k < length l)%nat -> region_closes_at l k = false) ->
  scan orig rest (Z.of_nat (length read)) (depth_of read) start = no_object.
Proof.
  revert read start. induction rest as [|c rest IH]; intros read start l.
  - reflexivity.
  - subst l. cbn [list_ascii_of_string scan]. intros Hstart Hnone.
    assert (Hl : (read ++ c :: list_ascii_of_string rest
                  = (read ++ [c]) ++ list_ascii_of_string rest)%list)
      by (now rewrite <- app_assoc).
    assert (Hlen : length (read ++ [c]) = S (length read))
      by (rewrite length_app; cbn; lia).
    assert (Hi : Z.of_nat (length read) + 1 = Z.of_nat (length (read ++ [c])))
      by lia.
    assert (Hat : (read ++ c :: list_ascii_of_string rest) !! length read = Some c)
      by apply list_lookup_middle, eq_refl.
    assert (Htake : take (length read) (read ++ c :: list_ascii_of_string rest) = read)
      by apply take_app_length.
    assert (Hnext : forall k,
               (length (read ++ [c]) <= k
                < length ((read ++ [c]) ++ list_ascii_of_string rest))%nat ->
               region_closes_at ((read ++ [c]) ++ list_ascii_of_string rest) k = false).
    { intros k Hk. rewrite <- Hl. apply Hnone. rewrite Hl. lia. }
    assert (Hflag := opened_before_S (read ++ c :: list_ascii_of_string rest) (length read)).
    rewrite Hat, Htake in Hflag.
    destruct (Ascii.eqb c open_brace) eqn:Hopen.
    + apply Ascii.eqb_eq in Hopen. subst c.
      rewrite Hi. replace (depth_of read + 1) with (depth_of (read ++ [open_brace]))
        by (rewrite depth_of_snoc; reflexivity).
      apply IH; [|exact Hnext].
      rewrite <- Hl, Hlen, Hflag. rewrite bool_decide_eq_true_2 by reflexivity.
      cbn [andb]. destruct (Z.eqb_spec (depth_of read) 0).
      * rewrite orb_true_r. cbn [negb]. apply Z.eqb_neq. lia.
      * now rewrite orb_false_r.
    + destruct (Ascii.eqb c close_brace) eqn:Hclose.
      * apply Ascii.eqb_eq in Hclose. subst c.
        assert (Hhere : region_closes_at
                          (read ++ close_brace :: list_ascii_of_string rest)
                          (length read) = false).
        { apply Hnone. rewrite length_app. cbn [length]. lia. }
        unfold region_closes_at in Hhere.
        rewrite Hat, take_snoc, depth_of_snoc in Hhere.
        rewrite bool_decide_eq_true_2 in Hhere by reflexivity.
        cbn [andb] in Hhere. change (delta close_brace) with (-1) in Hhere.
        replace (depth_of read + -1) with (depth_of read - 1) in Hhere by lia.
        rewrite Hstart, negb_involutive, Hhere.
        rewrite Hi.
        replace (depth_of read - 1) with (depth_of (read ++ [close_brace]))
          by (rewrite depth_of_snoc; reflexivity).
        apply IH; [|exact Hnext].
        rewrite <- Hl, Hlen, Hflag.
        rewrite bool_decide_eq_false_2 by discriminate.
        cbn [andb]. now rewrite orb_false_r.
      * rewrite Hi.
        replace (depth_of read) with (depth_of (read ++ [c])) at 1
          by (rewrite depth_of_snoc; unfold delta; rewrite Hopen, Hclose; lia).
        apply IH; [|exact Hnext].
        rewrite <- Hl, Hlen, Hflag.
        rewrite bool_decide_eq_false_2.
        -- cbn [andb]. now rewrite orb_false_r.
        -- intros [= ->]. now rewrite Ascii.eqb_refl in Hopen.
Qed.

Lemma parse_response_no_region (text : string) :
  no_region_closes text = true -> parse_response text = no_object.
Proof.
  intros Hno. unfold parse_response.
  apply (scan_counting text text [] (-1)).
  - reflexivity.
  - intros k Hk. cbn [app length] in *. unfold no_region_closes in Hno.
    rewrite forallb_forall in Hno. apply negb_true_iff, Hno.
    apply in_seq. lia.
Qed.

End CountingFacts.

(** ** The workflow driver, call by call *)

Lemma index_in_range {A} (l : list A) (k : Z) (x : A) :
  0 <= k -> l !! Z.to_nat k = Some x -> Py.index l k = inr x.
Proof.
  intros Hk Hx. unfold Py.index.
  pose proof (lookup_lt_Some _ _ _ Hx) as Hlt.
  destruct (Z.ltb_spec k 0); [lia|].
  destruct (Z.leb_spec 0 k); [|lia].
  destruct (Z.ltb_spec k (Z.of_nat (length l))); [|lia].
  cbn [andb]. now rewrite Hx.
Qed.

Lemma with_workflow_data_id (self : MicroAgent) :
  with_workflow_data self (workflow_data self) = self.
Proof. now destruct self. Qed.

Section DriverFacts.
Context `{Collaborators}.

Lemma matches_fixed (prev : StepDefinition) (do_ : gmap string value)
    (expected : value) (a : Action) (o : Observation) :
  step_do prev = Some do_ ->
  do_ !! "action" = Some expected ->
  matches prev (a, o) = Py.str_eq (action_attr a) expected.
Proof. intros Hdo Hact. unfold matches. now rewrite Hdo, Hact. Qed.

(** The loop over the log, for a previous step with a fixed action and a
    name: the outcomes of the matching pairs are written in order, through
    the first one that is not acceptable, where the loop returns false. *)
Lemma update_loop_fixed (prev : StepDefinition) (do_ : gmap string value)
    (expected : value) (name : string)
    (info : list (Action * Observation)) (self : MicroAgent) (state : State) :
  step_do prev = Some do_ ->
  do_ !! "action" = Some expected ->
  step_name prev = Some name ->
  update_loop prev info self state
  = (inr (forallb acceptable (matching prev info)),
     with_workflow_data self
       (record_all name (through_first_failure (matching prev info))
                   (workflow_data self)),
     state).
Proof.
  intros Hdo Hact Hname. revert self.
  induction info as [|[a o] info IH]; intros self.
  - cbn. now rewrite with_workflow_data_id.
  - cbn [update_loop]. unfold bind at 1, lift at 1, do_of. rewrite Hdo.
    unfold Py.contains. rewrite Hact.
    unfold bind at 1, lift at 1. unfold bind at 1, lift at 1, Py.getitem.
    rewrite Hact. unfold matching.
    pose proof (matches_fixed prev do_ expected a o Hdo Hact) as Hm.
    destruct (Py.str_eq (action_attr a) expected) eqn:Heq.
    + rewrite filter_cons_True by exact Hm.
      unfold bind at 1, lift at 1, name_of. rewrite Hname.
      unfold bind at 1, set_workflow_data at 1.
      cbn [forallb through_first_failure]. unfold acceptable at 1 3.
      cbn [fst snd].
      destruct (validate_observation a o) eqn:Hv; cbn [negb andb].
      * fold (matching prev info). rewrite IH. cbn [workflow_data].
        reflexivity.
      * reflexivity.
    + rewrite filter_cons_False by (rewrite Hm; discriminate).
      fold (matching prev info). apply IH.
Qed.

(** The loop writes to [workflow_data] only, and leaves [state] alone. *)
Lemma update_loop_frame (prev : StepDefinition)
    (info : list (Action * Observation)) (self : MicroAgent) (state : State) :
  exists r data,
    update_loop prev info self state = (r, with_workflow_data self data, state).
Proof.
  revert self. induction info as [|[a o] info IH]; intros self.
  - exists (inr true), (workflow_data self). cbn. now rewrite with_workflow_data_id.
  - cbn [update_loop]. unfold bind at 1, lift at 1.
    destruct (do_of prev) as [e|do_].
    { exists (inl e), (workflow_data self). now rewrite with_workflow_data_id. }
    destruct (Py.contains do_ "action"); [|apply IH].
    unfold bind at 1, lift at 1. unfold bind at 1, lift at 1.
    destruct (Py.getitem do_ "action") as [e|expected].
    { exists (inl e), (workflow_data self). now rewrite with_workflow_data_id. }
    destruct (Py.str_eq (action_attr a) expected); [|apply IH].
    unfold bind at 1, lift at 1.
    destruct (name_of prev) as [e|name].
    { exists (inl e), (workflow_data self). now rewrite with_workflow_data_id. }
    unfold bind at 1, set_workflow_data at 1.
    destruct (validate_observation a o); cbn [negb].
    + match goal with |- context [update_loop prev info ?s state] =>
        destruct (IH s) as (r & data & ->) end.
      now exists r, data.
    + now eexists _, _.
Qed.

Lemma update_previous_frame (self : MicroAgent) (state : State) :
  exists r data,
    update_previous_workflow_step self state
    = (r, with_workflow_data self data, state).
Proof.
  unfold update_previous_workflow_step, bind at 1, get_self.
  unfold bind at 1, lift at 1.
  destruct (workflow_of self) as [e|wf].
  { exists (inl e), (workflow_data self). now rewrite with_workflow_data_id. }
  unfold bind at 1, lift at 1.
  destruct (Py.index wf (workflow_step self - 1)) as [e|prev].
  { exists (inl e), (workflow_data self). now rewrite with_workflow_data_id. }
  unfold bind at 1, get_state. apply update_loop_frame.
Qed.

Lemma validation_frame (self : MicroAgent) (state : State) :
  exists r data,
    validation self self state = (r, with_workflow_data self data, state).
Proof.
  unfold validation. destruct (workflow_step self >? 0).
  - apply update_previous_frame.
  - exists (inr true), (workflow_data self). unfold ret.
    now rewrite with_workflow_data_id.
Qed.

(** [prompt_to_action] does not touch the agent. *)
Lemma prompt_to_action_frame (p inputs : value) (self : MicroAgent) (state : State) :
  (prompt_to_action p inputs self state).1.2 = self.
Proof.
  unfold prompt_to_action, bind, get_self, get_state, lift, add_num_of_chars.
  destruct (render p state (delegates self) inputs); [reflexivity|].
  destruct (completion s); [reflexivity|].
  destruct (Py.len_value p); reflexivity.
Qed.

Lemma perform_frame (step : StepDefinition) (self : MicroAgent) (state : State) :
  (perform step self state).1.2 = self.
Proof.
  unfold perform.
  destruct (Py.contains (default ∅ (step_do step)) "action"); [reflexivity|].
  destruct (Py.contains (default ∅ (step_do step)) "prompt"); [|reflexivity].
  unfold bind at 1, lift at 1.
  destruct (Py.getitem (default ∅ (step_do step)) "prompt"); [reflexivity|].
  apply prompt_to_action_frame.
Qed.

(** [step_workflow] in three cases. *)
Lemma step_workflow_finished (self : MicroAgent) (state : State)
    (wf : list StepDefinition) :
  workflow_of self = inr wf ->
  Z.of_nat (length wf) <= workflow_step self ->
  step_workflow self state = (inr AgentFinishAction, self, state).
Proof.
  intros Hwf Hge. unfold step_workflow, bind at 1, get_self.
  unfold bind at 1, lift at 1. rewrite Hwf.
  rewrite Z.geb_leb. destruct (Z.leb_spec (Z.of_nat (length wf)) (workflow_step self)); [|lia].
  reflexivity.
Qed.

Lemma step_workflow_unfinished (self : MicroAgent) (state : State)
    (wf : list StepDefinition) :
  workflow_of self = inr wf ->
  workflow_step self < Z.of_nat (length wf) ->
  step_workflow self state
  = match validation self self state with
    | (inl e, self1, state1) => (inl e, self1, state1)
    | (inr false, self1, state1) => (inr AgentRejectAction, self1, state1)
    | (inr true, self1, state1) =>
        match Py.index wf (workflow_step self1) with
        | inl e => (inl e, self1, state1)
        | inr step =>
            perform step (with_workflow_step self1 (workflow_step self1 + 1))
                    state1
        end
    end.
Proof.
  intros Hwf Hlt. unfold step_workflow, bind at 1, get_self.
  unfold bind at 1, lift at 1. rewrite Hwf.
  rewrite Z.geb_leb. destruct (Z.leb_spec (Z.of_nat (length wf)) (workflow_step self)); [lia|].
  unfold bind at 1. fold (validation self).
  destruct (validation_frame self state) as (r & data & ->).
  destruct r as [e|[|]]; cbn [negb]; try reflexivity.
  unfold bind at 1. unfold bind at 1, lift at 1.
  unfold workflow_of at 1. cbn [with_workflow_data agent_definition].
  unfold workflow_of in Hwf. rewrite Hwf.
  unfold bind at 1, lift at 1. cbn [workflow_step].
  destruct (Py.index wf (workflow_step self)); [reflexivity|].
  reflexivity.
Qed.

End DriverFacts.

Section RunFacts.
Context `{Collaborators}.

Lemma contains_lookup {A} (d : gmap string A) (k : string) :
  Py.contains d k = true -> exists x, d !! k = Some x.
Proof. unfold Py.contains. destruct (d !! k); [eauto | discriminate]. Qed.

(** [update_previous_workflow_step] is the loop over the log for the step
    before the current one. *)
Lemma update_previous_unfold (self : MicroAgent) (state : State)
    (wf : list StepDefinition) (prev : StepDefinition) :
  workflow_of self = inr wf ->
  0 < workflow_step self ->
  wf !! Z.to_nat (workflow_step self - 1) = Some prev ->
  update_previous_workflow_step self state
  = update_loop prev (updated_info state) self state.
Proof.
  intros Hwf Hpos Hprev.
  unfold update_previous_workflow_step, bind at 1, get_self.
  unfold bind at 1, lift at 1. rewrite Hwf.
  unfold bind at 1, lift at 1.
  rewrite (index_in_range wf _ prev) by (assumption || lia).
  reflexivity.
Qed.

(** One call on a step with a fixed command, the previous step (if any)
    being a named fixed command whose matching outcomes are acceptable. *)
Lemma step_workflow_fixed (self : MicroAgent) (state : State)
    (wf : list StepDefinition) (k : nat) (step : StepDefinition) (a : Action) :
  workflow_of self = inr wf ->
  workflow_step self = Z.of_nat k ->
  wf !! k = Some step ->
  fixed_command step a ->
  (forall i prev, k = S i -> wf !! i = Some prev ->
     (exists b, fixed_command prev b) /\ is_Some (step_name prev)
     /\ forallb acceptable (matching prev (updated_info state)) = true) ->
  exists data,
    step_workflow self state
    = (inr a,
       with_workflow_step (with_workflow_data self data) (Z.of_nat (S k)),
       state).
Proof.
  intros Hwf Hk Hstep (do_ & Hdo & Hact & Ha) Hprev.
  pose proof (lookup_lt_Some _ _ _ Hstep) as Hlt.
  rewrite (step_workflow_unfinished self state wf) by (assumption || lia).
  assert (Hval : exists data,
             validation self self state
             = (inr true, with_workflow_data self data, state)).
  { unfold validation. destruct k as [|i].
    - rewrite Hk. cbn. exists (workflow_data self). unfold ret.
      now rewrite with_workflow_data_id.
    - destruct (Z.gtb_spec (workflow_step self) 0); [|lia].
      assert (Hi : (i < length wf)%nat) by lia.
      apply lookup_lt_is_Some_2 in Hi as [prev Hp].
      destruct (Hprev i prev eq_refl Hp)
        as ((b & dp & Hdp & Hcp & _) & [name Hname] & Hacc).
      apply contains_lookup in Hcp as [expected Hexp].
      rewrite (update_previous_unfold self state wf prev); try assumption.
      + rewrite (update_loop_fixed prev dp expected name) by assumption.
        rewrite Hacc. eauto.
      + rewrite Hk. replace (Z.of_nat (S i) - 1) with (Z.of_nat i) by lia.
        now rewrite Nat2Z.id. }
  destruct Hval as (data & ->). exists data.
  cbn [with_workflow_data workflow_step]. rewrite Hk.
  rewrite (index_in_range wf _ step); [|lia|now rewrite Nat2Z.id].
  unfold perform. rewrite Hdo. cbn [default from_option id]. rewrite Hact.
  unfold lift. rewrite Ha. do 2 f_equal.
  unfold with_workflow_step. cbn. f_equal. lia.
Qed.

Lemma run_app (self : MicroAgent) (f1 f2 : list State) :
  run self (f1 ++ f2)
  = let '(r1, s1) := run self f1 in
    let '(r2, s2) := run s1 f2 in
    (r1 ++ r2, s2).
Proof.
  revert self. induction f1 as [|state f1 IH]; intros self.
  - cbn. now destruct (run self f2).
  - cbn [app run]. destruct (step_workflow self state) as [[r self'] st'].
    rewrite IH. destruct (run self' f1) as [r1 s1].
    now destruct (run s1 f2).
Qed.

(** Calls [k], [k+1], ... of a run over a procedure of named fixed commands
    whose outcomes are accepted. *)
Lemma run_fixed_from (wf : list StepDefinition) (actions : list Action)
    (feeds : list State) :
  Forall2 fixed_command wf actions ->
  Forall (fun step => is_Some (step_name step)) wf ->
  forall (self : MicroAgent) (k : nat),
  workflow_of self = inr wf ->
  workflow_step self = Z.of_nat k ->
  (k + length feeds <= length wf)%nat ->
  (forall j i prev state, feeds !! j = Some state -> (k + j)%nat = S i ->
     wf !! i = Some prev ->
     forallb acceptable (matching prev (updated_info state)) = true) ->
  exists final,
    run self feeds = (map inr (take (length feeds) (drop k actions)), final)
    /\ workflow_step final = Z.of_nat (k + length feeds)
    /\ workflow_of final = inr wf.
Proof.
  intros Hfixed Hnames. induction feeds as [|state feeds IH];
    intros self k Hwf Hk Hlen Hacc.
  - exists self. cbn. rewrite Nat.add_0_r. auto.
  - cbn [length] in Hlen.
    assert (Hlt : (k < length wf)%nat) by lia.
    apply lookup_lt_is_Some_2 in Hlt as [step Hstep].
    destruct (Forall2_lookup_l _ _ _ _ _ Hfixed Hstep) as (a & Ha & Hcmd).
    destruct (step_workflow_fixed self state wf k step a Hwf Hk Hstep Hcmd)
      as (data & Hcall).
    { intros i prev -> Hp. split; [|split].
      - destruct (Forall2_lookup_l _ _ _ _ _ Hfixed Hp) as (b & _ & Hb). eauto.
      - rewrite Forall_lookup in Hnames. exact (Hnames i prev Hp).
      - apply (Hacc 0%nat i prev state); [reflexivity | lia | assumption]. }
    cbn [run]. rewrite Hcall.
    destruct (IH (with_workflow_step (with_workflow_data self data)
                                     (Z.of_nat (S k))) (S k))
      as (final & Hrun & Hws & Hwf').
    + exact Hwf.
    + reflexivity.
    + lia.
    + intros j i prev st Hj Hi Hp.
      apply (Hacc (S j) i prev st); [exact Hj | lia | exact Hp].
    + exists final. rewrite Hrun. split; [|split].
      * cbn [length]. rewrite (drop_S _ _ _ Ha). reflexivity.
      * rewrite Hws. f_equal. cbn [length]. lia.
      * exact Hwf'.
Qed.

(** A call moves the step index by zero or one. *)
Lemma step_workflow_step_index (self : MicroAgent) (state : State) :
  workflow_step self <= workflow_step (step_workflow self state).1.2
  <= workflow_step self + 1.
Proof.
  destruct (workflow_of self) as [e|wf] eqn:Hwf.
  - assert (Hcall : step_workflow self state = (inl e, self, state)).
    { unfold step_workflow, bind at 1, get_self. unfold bind at 1, lift at 1.
      now rewrite Hwf. }
    rewrite Hcall. cbn. lia.
  - destruct (Z.le_gt_cases (Z.of_nat (length wf)) (workflow_step self)).
    + rewrite (step_workflow_finished self state wf) by assumption. cbn. lia.
    + rewrite (step_workflow_unfinished self state wf) by (assumption || lia).
      destruct (validation_frame self state) as (r & data & ->).
      destruct r as [e|[|]]; cbn [fst snd with_workflow_data workflow_step];
        try lia.
      destruct (Py.index wf (workflow_step self));
        cbn [fst snd with_workflow_data workflow_step]; try lia.
      rewrite perform_frame. cbn. lia.
Qed.

End RunFacts.

(** ** Properties of parse_response *)

Section ExtractorProperties.
Context `{Collaborators}.



(** C5, amended. When the first balanced region decodes to a mapping and
    the factory fails on it, [parse_response] lets the factory's exception
    through unchanged; only an exception of class [JSONDecodeError] is
    turned into [LLMOutputError] with the exception as cause. *)
Theorem parse_response_factory_failure (pre obj post : string) (d : value)
    (e : exn) :
  brace_free pre = true ->
  balanced_region obj = true ->
  json_loads obj = inr d ->
  action_from_dict d = inl e ->
  parse_response (pre +:+ obj +:+ post)
  = match e with
    | JSONDecodeError _ => inl (LLMOutputError msg_invalid_json (Some e))
    | _ => inl e
    end.
Proof.
  intros Hpre Hobj Hd He.
  rewrite parse_response_region by assumption.
  unfold decode_candidate. rewrite Hd, He. reflexivity.
Qed.

(** C7. A text without an opening delimiter, and more generally a text in
    which no balanced region ever closes (no closing delimiter brings the
    counted depth back to zero after an opening delimiter met at depth
    zero), makes [parse_response] raise [LLMOutputError] with the
    no-object message and no cause. *)
Theorem parse_response_no_object (text : string) :
  no_open_brace text = true \/ no_region_closes text = true ->
  parse_response text = inl (LLMOutputError msg_no_json None).
Proof.
  intros [Hno|Hno].
  - now apply scan_no_open.
  - now apply parse_response_no_region.
Qed.

(** C9, amended. When an unmatched closing delimiter comes before the first
    opening delimiter and, after it, the depth never rises above zero (at
    no point have two more delimiters been opened than closed),
    [parse_response] raises the no-object error, whatever objects the rest
    of the text holds. *)
Theorem parse_response_early_close (pre rest : string) :
  brace_free pre = true ->
  stays_nonpositive (-1) rest = true ->
  parse_response (pre +:+ String close_brace rest)
  = inl (LLMOutputError msg_no_json None).
Proof.
  intros Hpre Hrest. unfold parse_response.
  rewrite scan_prose by assumption.
  cbn [scan]. rewrite close_is_not_open. cbn.
  apply scan_nonpositive; [assumption | lia].
Qed.

End ExtractorProperties.

(** ** Properties of the workflow driver *)

Section DriverProperties.
Context `{Collaborators}.

Lemma init_named (d : AgentDefinition) (p name : string) :
  def_name d = Some name ->
  is_Some (all_microagents !! name) ->
  __init__ d p = inr (mkAgent d p (delete name all_microagents) 0 ∅).
Proof.
  intros Hname [other Hreg]. unfold __init__. now rewrite Hname, Hreg.
Qed.

Lemma init_fresh (d : AgentDefinition) (p : string) (self : MicroAgent) :
  __init__ d p = inr self ->
  agent_definition self = d /\ workflow_step self = 0.
Proof.
  unfold __init__. destruct (def_name d); [|discriminate].
  destruct (all_microagents !! s); [|discriminate].
  now intros [= <-].
Qed.

Lemma run_finished (self : MicroAgent) (wf : list StepDefinition)
    (feeds : list State) :
  workflow_of self = inr wf ->
  Z.of_nat (length wf) <= workflow_step self ->
  run self feeds = (replicate (length feeds) (inr AgentFinishAction), self).
Proof.
  intros Hwf Hge. induction feeds as [|state feeds IH]; [reflexivity|].
  cbn [run]. rewrite (step_workflow_finished self state wf) by assumption.
  now rewrite IH.
Qed.

(** C3. On a freshly built agent whose procedure has [N] named steps, all
    of them fixed commands, the controller feeding back logs in which every
    outcome of the previous step's command is acceptable: the first [N]
    calls return the [N] commands in order, call [N+1] returns
    [AgentFinishAction] with the step index at [N]; the index is 0 at the
    start, is [k] after [k <= N] calls, and no call ever lowers it. *)
Theorem run_fixed_procedure (d : AgentDefinition) (p : string)
    (self : MicroAgent) (wf : list StepDefinition) (actions : list Action)
    (feeds : list State) (last : State) :
  __init__ d p = inr self ->
  def_workflow d = Some wf ->
  Forall2 fixed_command wf actions ->
  Forall (fun step => is_Some (step_name step)) wf ->
  length feeds = length wf ->
  (forall k prev state, wf !! k = Some prev -> feeds !! S k = Some state ->
     forallb acceptable (matching prev (updated_info state)) = true) ->
  workflow_step self = 0
  /\ length actions = length wf
  /\ (run self feeds).1 = map inr actions
  /\ (run self (feeds ++ [last])).1 = map inr actions ++ [inr AgentFinishAction]
  /\ workflow_step (run self (feeds ++ [last])).2 = Z.of_nat (length wf)
  /\ (forall k, (k <= length wf)%nat ->
        workflow_step (run self (take k feeds)).2 = Z.of_nat k)
  /\ (forall (agent : MicroAgent) (state : State),
        workflow_step agent
        <= workflow_step (step_workflow agent state).1.2
        <= workflow_step agent + 1).
Proof.
  intros Hinit Hdef Hfixed Hnames Hlen Hacc.
  destruct (init_fresh d p self Hinit) as [Hd Hzero].
  assert (Hwf : workflow_of self = inr wf)
    by (unfold workflow_of; now rewrite Hd, Hdef).
  assert (Hactions : length actions = length wf)
    by (symmetry; exact (Forall2_length _ _ _ Hfixed)).
  assert (Hprefix : forall k, (k <= length wf)%nat ->
            exists final,
              run self (take k feeds)
              = (map inr (take k actions), final)
              /\ workflow_step final = Z.of_nat k
              /\ workflow_of final = inr wf).
  { intros k Hk.
    destruct (run_fixed_from wf actions (take k feeds) Hfixed Hnames self 0%nat)
      as (final & Hrun & Hws & Hwf'); try assumption.
    - rewrite length_take. lia.
    - intros j i prev state Hj Hi Hp. cbn in Hi. subst j.
      apply lookup_take_Some in Hj as [Hj _]. eauto.
    - exists final. rewrite length_take in Hrun, Hws.
      rewrite Nat.min_l in Hrun, Hws by lia.
      now rewrite drop_0 in Hrun. }
  destruct (Hprefix (length wf) (Nat.le_refl _))
    as (final & Hrun & Hws & Hwf').
  rewrite <- Hlen in Hrun at 1. rewrite firstn_all in Hrun.
  rewrite <- Hactions, firstn_all in Hrun.
  repeat split.
  - exact Hzero.
  - exact Hactions.
  - now rewrite Hrun.
  - rewrite run_app, Hrun. cbn [run].
    rewrite (step_workflow_finished final last wf) by (assumption || lia).
    reflexivity.
  - rewrite run_app, Hrun. cbn [run].
    rewrite (step_workflow_finished final last wf) by (assumption || lia).
    exact Hws.
  - intros k Hk. destruct (Hprefix k Hk) as (fk & -> & Hk' & _). exact Hk'.
  - apply step_workflow_step_index.
  - apply step_workflow_step_index.
Qed.

(** C8. Once the step index has reached the length of the procedure, every
    call returns [AgentFinishAction] and leaves the agent (step index and
    collected data) and the state as they were, whatever the log reports
    about the last step: the last step's outcome is never validated. *)
Theorem step_workflow_after_last (self : MicroAgent)
    (wf : list StepDefinition) (feeds : list State) :
  workflow_of self = inr wf ->
  Z.of_nat (length wf) <= workflow_step self ->
  (forall state,
     step_workflow self state = (inr AgentFinishAction, self, state))
  /\ run self feeds = (replicate (length feeds) (inr AgentFinishAction), self).
Proof.
  intros Hwf Hge. split.
  - intros state. now apply (step_workflow_finished self state wf).
  - now apply (run_finished self wf).
Qed.

(** C10. When the mapping of the step to take has both an [action] and a
    [prompt] entry, the call returns what the factory builds from the
    mapping; the result mentions neither the renderer nor the completion
    service, and the state (with its character count) is unchanged. *)
Theorem step_workflow_action_over_prompt (self self1 : MicroAgent)
    (state state1 : State) (wf : list StepDefinition)
    (step : StepDefinition) (do_ : gmap string value) :
  workflow_of self = inr wf ->
  0 <= workflow_step self ->
  wf !! Z.to_nat (workflow_step self) = Some step ->
  step_do step = Some do_ ->
  Py.contains do_ "action" = true ->
  Py.contains do_ "prompt" = true ->
  validation self self state = (inr true, self1, state1) ->
  state1 = state
  /\ step_workflow self state
     = (action_from_dict (VDict do_),
        with_workflow_step self1 (workflow_step self + 1),
        state).
Proof.
  intros Hwf Hpos Hstep Hdo Hact _ Hval.
  pose proof (lookup_lt_Some _ _ _ Hstep) as Hlt.
  destruct (validation_frame self state) as (r & data & Hframe).
  rewrite Hframe in Hval. injection Hval as -> <- <-.
  split; [reflexivity|].
  rewrite (step_workflow_unfinished self state wf) by (assumption || lia).
  rewrite Hframe. cbn [with_workflow_data workflow_step].
  rewrite (index_in_range wf _ step) by assumption.
  unfold perform. rewrite Hdo. cbn [default from_option id]. rewrite Hact.
  reflexivity.
Qed.

(** C6, amended. A definition without a name makes [__init__] raise
    [ValueError]; a definition with a registered name is accepted whatever
    its steps are; a step with neither an action nor a prompt makes
    [step_workflow] raise [ValueError] in the call that takes that step. *)
Theorem definition_errors (d : AgentDefinition) (p : string)
    (self self1 : MicroAgent) (state state1 : State)
    (wf : list StepDefinition) (step : StepDefinition) :
  (def_name d = None -> __init__ d p = inl (ValueError msg_no_name))
  /\ (forall name, def_name d = Some name ->
        is_Some (all_microagents !! name) ->
        __init__ d p = inr (mkAgent d p (delete name all_microagents) 0 ∅))
  /\ (workflow_of self = inr wf ->
      0 <= workflow_step self ->
      wf !! Z.to_nat (workflow_step self) = Some step ->
      Py.contains (default ∅ (step_do step)) "action" = false ->
      Py.contains (default ∅ (step_do step)) "prompt" = false ->
      validation self self state = (inr true, self1, state1) ->
      step_workflow self state
      = (inl (ValueError msg_no_action_or_prompt),
         with_workflow_step self1 (workflow_step self + 1),
         state1)).
Proof.
  split; [|split].
  - intros Hname. unfold __init__. now rewrite Hname.
  - intros name. apply init_named.
  - intros Hwf Hpos Hstep Hact Hprompt Hval.
    pose proof (lookup_lt_Some _ _ _ Hstep) as Hlt.
    destruct (validation_frame self state) as (r & data & Hframe).
    rewrite Hframe in Hval. injection Hval as -> <- <-.
    rewrite (step_workflow_unfinished self state wf) by (assumption || lia).
    rewrite Hframe. cbn [with_workflow_data workflow_step].
    rewrite (index_in_range wf _ step) by assumption.
    unfold perform. rewrite Hact, Hprompt. reflexivity.
Qed.

End DriverProperties.

(** ** Previous-step validation *)

Lemma through_first_failure_all (pairs : list (Action * Observation)) :
  forallb acceptable pairs = true -> through_first_failure pairs = pairs.
Proof.
  induction pairs as [|entry pairs IH]; [reflexivity|].
  cbn [forallb through_first_failure]. intros Hall.
  apply andb_prop in Hall as [Hentry Hall]. rewrite Hentry.
  now rewrite IH.
Qed.

Lemma through_first_failure_some (pairs : list (Action * Observation)) :
  forallb acceptable pairs = false ->
  exists before entry after,
    pairs = before ++ entry :: after
    /\ forallb acceptable before = true
    /\ acceptable entry = false
    /\ through_first_failure pairs = before ++ [entry].
Proof.
  induction pairs as [|entry pairs IH]; [discriminate|].
  cbn [forallb through_first_failure]. intros Hall.
  destruct (acceptable entry) eqn:Hentry.
  - cbn [andb] in Hall.
    destruct (IH Hall) as (before & failing & after & -> & Hb & Hf & Ht).
    exists (entry :: before), failing, after. repeat split.
    + cbn [forallb]. now rewrite Hentry, Hb.
    + exact Hf.
    + now rewrite Ht.
  - exists [], entry, pairs. repeat split. exact Hentry.
Qed.

Lemma record_all_last (name : string) (before : list (Action * Observation))
    (entry : Action * Observation) (data : gmap string Observation) :
  record_all name (before ++ [entry]) data !! name = Some entry.2.
Proof.
  unfold record_all. rewrite foldl_app. cbn [foldl].
  apply lookup_insert_eq.
Qed.

Section ValidationProperties.
Context `{Collaborators}.

(** C4, amended. Validation of a named previous step with a fixed action
    goes through the matching pairs of the log in order and writes each
    outcome under the step's name before checking it, through the first
    pair that is not acceptable and no further; a [CmdOutputObservation] is
    acceptable exactly when its exit code is zero and any other
    observation always; if a matching pair is not acceptable the call
    returns [AgentRejectAction], the step index is unchanged and the data
    written so far, ending with the failing outcome, stays. *)
Theorem previous_step_validation (self : MicroAgent) (state : State)
    (wf : list StepDefinition) (prev : StepDefinition)
    (do_ : gmap string value) (expected : value) (name : string) :
  workflow_of self = inr wf ->
  0 < workflow_step self < Z.of_nat (length wf) ->
  wf !! Z.to_nat (workflow_step self - 1) = Some prev ->
  step_do prev = Some do_ ->
  do_ !! "action" = Some expected ->
  step_name prev = Some name ->
  update_previous_workflow_step self state
  = (inr (forallb acceptable (matching prev (updated_info state))),
     with_workflow_data self
       (record_all name
          (through_first_failure (matching prev (updated_info state)))
          (workflow_data self)),
     state)
  /\ (forallb acceptable (matching prev (updated_info state)) = true ->
      through_first_failure (matching prev (updated_info state))
      = matching prev (updated_info state))
  /\ (forall a exit_code content,
        validate_observation a (CmdOutputObservation exit_code content)
        = (exit_code =? 0))
  /\ (forall a content,
        validate_observation a (OtherObservation content) = true)
  /\ (forallb acceptable (matching prev (updated_info state)) = false ->
      step_workflow self state
      = (inr AgentRejectAction,
         with_workflow_data self
           (record_all name
              (through_first_failure (matching prev (updated_info state)))
              (workflow_data self)),
         state)
      /\ exists before entry after,
           matching prev (updated_info state) = before ++ entry :: after
           /\ forallb acceptable before = true
           /\ acceptable entry = false
           /\ record_all name
                (through_first_failure (matching prev (updated_info state)))
                (workflow_data self) !! name = Some entry.2).
Proof.
  intros Hwf [Hpos Hlt] Hprev Hdo Hact Hname.
  assert (Hupd : update_previous_workflow_step self state
                 = (inr (forallb acceptable (matching prev (updated_info state))),
                    with_workflow_data self
                      (record_all name
                         (through_first_failure
                            (matching prev (updated_info state)))
                         (workflow_data self)),
                    state)).
  { rewrite (update_previous_unfold self state wf prev) by assumption.
    now apply (update_loop_fixed prev do_ expected name). }
  split; [exact Hupd|].
  split; [apply through_first_failure_all|].
  split; [reflexivity|].
  split; [reflexivity|].
  intros Hfail. split.
  - rewrite (step_workflow_unfinished self state wf) by assumption.
    unfold validation. destruct (Z.gtb_spec (workflow_step self) 0); [|lia].
    now rewrite Hupd, Hfail.
  - destruct (through_first_failure_some _ Hfail)
      as (before & entry & after & Hsplit & Hb & Hf & Ht).
    exists before, entry, after. rewrite Ht.
    repeat split; try assumption. apply record_all_last.
Qed.

End ValidationProperties.

(** ** The properties on concrete texts and procedures *)

Import Demo.



(** [Sure! {"x":1} Done.]: the region decodes to a mapping without a
    discriminator, the factory raises [KeyError], and [parse_response] raises
    that [KeyError], not an [LLMOutputError] with it as cause. *)
Lemma factory_failure_is_not_wrapped :
  brace_free "Sure! " = true
  /\ balanced_region x_text = true
  /\ json_loads x_text = inr (VDict (<["x" := VInt 1]> ∅))
  /\ action_from_dict (VDict (<["x" := VInt 1]> ∅)) = inl (KeyError "action")
  /\ parse_response ("Sure! " +:+ x_text +:+ " Done.") = inl (KeyError "action")
  /\ parse_response ("Sure! " +:+ x_text +:+ " Done.")
     <> inl (LLMOutputError msg_invalid_json (Some (KeyError "action"))).
Proof. repeat split; try reflexivity. discriminate. Qed.

(** [Here: {"a": {"b": 1}} trailing {"x":1}]: the balanced region selected is the
    first one, and the factory's [KeyError] on it comes out unchanged. *)
Lemma parse_response_factory_failure_witness :
  parse_response ("Here: " +:+ nested_text +:+ " trailing " +:+ x_text)
  = inl (KeyError "action").
Proof.
  apply (parse_response_factory_failure "Here: " nested_text
           (" trailing " +:+ x_text)
           (VDict (<["a" := VDict (<["b" := VInt 1]> ∅)]> ∅))
           (KeyError "action"));
    reflexivity.
Defined.

(** [no braces here }] has no opening delimiter; in [{{"x":1}] the outer
    region never closes. *)
Lemma parse_response_no_object_witness :
  parse_response "no braces here }" = inl (LLMOutputError msg_no_json None)
  /\ parse_response ("{" +:+ x_text) = inl (LLMOutputError msg_no_json None).
Proof.
  split.
  - apply (parse_response_no_object "no braces here }"). left. reflexivity.
  - apply (parse_response_no_object ("{" +:+ x_text)). right. reflexivity.
Defined.

(** [ok }{{"action":"finish"}}]: the unmatched closing delimiter takes the depth
    to -1, the next opening delimiter brings it to 0 without recording a
    start, the one after it records a start at depth 0, and its closing
    delimiter ends a candidate, which is decoded.  [ok } {"a": {"b": 1}}]: the
    same way the inner object [{"b": 1}] becomes the candidate. *)
Lemma early_close_then_nested_object :
  brace_free "ok " = true
  /\ parse_response ("ok " +:+ String close_brace ("{" +:+ finish_text +:+ "}"))
     = inr AgentFinishAction
  /\ json_loads inner_text = inr (VDict (<["b" := VInt 1]> ∅))
  /\ parse_response ("ok " +:+ String close_brace (" " +:+ nested_text))
     = action_from_dict (VDict (<["b" := VInt 1]> ∅))
  /\ parse_response ("ok " +:+ String close_brace (" " +:+ nested_text))
     = inl (KeyError "action")
  /\ parse_response ("ok " +:+ String close_brace (" " +:+ nested_text))
     <> inl (LLMOutputError msg_no_json None).
Proof. repeat split; try reflexivity. discriminate. Qed.

(** [oops} {"x":1} {"action":"finish"}]: the objects after the unmatched
    closing delimiter are flat, the depth moves between -1 and 0, and no
    candidate is found. *)
Lemma parse_response_early_close_witness :
  parse_response
    ("oops" +:+ String close_brace (" " +:+ x_text +:+ " " +:+ finish_text))
  = inl (LLMOutputError msg_no_json None).
Proof.
  apply (parse_response_early_close "oops"
           (" " +:+ x_text +:+ " " +:+ finish_text)); reflexivity.
Defined.

(** The procedure [twice] (the command [run ls] two times): two calls return
    the two commands, the third returns [AgentFinishAction] although the log
    reports a failed last step. *)
Lemma run_fixed_procedure_witness :
  (run twice_agent ([quiet; run_succeeded] ++ [run_failed])).1
  = map inr [run_ls; run_ls] ++ [inr AgentFinishAction]
  /\ workflow_step (run twice_agent ([quiet; run_succeeded] ++ [run_failed])).2
     = 2.
Proof.
  destruct (run_fixed_procedure twice "do it" twice_agent [step_run; step_run]
              [run_ls; run_ls] [quiet; run_succeeded] run_failed)
    as (_ & _ & _ & Hrun & Hindex & _).
  - reflexivity.
  - reflexivity.
  - repeat constructor; exists run_ls_dict; repeat split; reflexivity.
  - repeat constructor; eexists; reflexivity.
  - reflexivity.
  - intros k prev state Hk Hfeed.
    destruct k as [|[|k]]; cbn in Hk, Hfeed; try discriminate.
    injection Hk as <-. injection Hfeed as <-. reflexivity.
  - split; [exact Hrun | exact Hindex].
Defined.

(** [twice_agent] after both steps: a log that reports a failed last step
    still gives [AgentFinishAction], call after call. *)
Lemma step_workflow_after_last_witness :
  step_workflow twice_at_2 run_failed
  = (inr AgentFinishAction, twice_at_2, run_failed)
  /\ run twice_at_2 [run_failed; run_failed_then_succeeded]
     = ([inr AgentFinishAction; inr AgentFinishAction], twice_at_2).
Proof.
  destruct (step_workflow_after_last twice_at_2 [step_run; step_run]
              [run_failed; run_failed_then_succeeded])
    as [Hcall Hrun].
  - reflexivity.
  - cbn. lia.
  - split; [apply Hcall | exact Hrun].
Defined.

(** A step with both entries: the fixed command is returned and the state is
    untouched. *)
Lemma step_workflow_action_over_prompt_witness :
  step_workflow both_agent quiet
  = (inr (ActionObject "run"
            (VDict (<["prompt" := VStr "say done"]>
                      (<["command" := VStr "ls"]> ∅)))),
     with_workflow_step both_agent 1,
     quiet).
Proof.
  destruct (step_workflow_action_over_prompt both_agent both_agent quiet quiet
              [step_both] step_both
              (<["prompt" := VStr "say done"]> run_ls_dict))
    as [_ Hcall];
    [first [reflexivity | cbn; lia] .. | rewrite Hcall; reflexivity].
Defined.

(** The definition [broken], whose only step has neither an action nor a
    prompt, is accepted by [__init__]; the error is raised by the first call
    of [step_workflow]. *)
Lemma step_without_action_or_prompt_passes_construction :
  def_workflow broken = Some [step_empty]
  /\ Py.contains (default ∅ (step_do step_empty)) "action" = false
  /\ Py.contains (default ∅ (step_do step_empty)) "prompt" = false
  /\ __init__ broken "do it" = inr broken_agent
  /\ step_workflow broken_agent quiet
     = (inl (ValueError msg_no_action_or_prompt),
        with_workflow_step broken_agent 1,
        quiet).
Proof. repeat split. Qed.

Lemma definition_errors_witness :
  __init__ nameless "do it" = inl (ValueError msg_no_name)
  /\ __init__ broken "do it" = inr broken_agent
  /\ step_workflow broken_agent quiet
     = (inl (ValueError msg_no_action_or_prompt),
        with_workflow_step broken_agent (0 + 1),
        quiet).
Proof.
  destruct (definition_errors nameless "do it" broken_agent broken_agent quiet quiet
              [step_empty] step_empty) as (Hnameless & _ & _).
  destruct (definition_errors broken "do it" broken_agent broken_agent quiet quiet
              [step_empty] step_empty) as (_ & Hinit & Hstep).
  split; [|split].
  - apply Hnameless. reflexivity.
  - apply (Hinit "broken"); [reflexivity | eexists; reflexivity].
  - apply Hstep; first [reflexivity | cbn; lia].
Defined.

(** The log [(run, exit 1); (run, exit 0)] after the first step of [twice]:
    both pairs match the step, the call returns [AgentRejectAction] with the
    first outcome under [s0], and the second matching pair is never written
    (writing every matching pair would leave the second outcome there). *)
Lemma later_matching_pair_not_recorded :
  matching step_run (updated_info run_failed_then_succeeded)
  = [(run_ls, failed_output); (run_ls, ok_output)]
  /\ (step_workflow twice_at_1 run_failed_then_succeeded).1.1
     = inr AgentRejectAction
  /\ workflow_data (step_workflow twice_at_1 run_failed_then_succeeded).1.2
     !! "s0" = Some failed_output
  /\ record_all "s0" [(run_ls, failed_output); (run_ls, ok_output)]
                (workflow_data twice_at_1) !! "s0" = Some ok_output.
Proof. repeat split. Qed.

(** The log [(run, exit 1)] after the first step of [twice]: the second call
    returns [AgentRejectAction] and the failing outcome is kept under [s0]. *)
Lemma previous_step_validation_witness :
  step_workflow twice_at_1 run_failed
  = (inr AgentRejectAction,
     with_workflow_data twice_at_1 (<["s0" := failed_output]> ∅),
     run_failed).
Proof.
  destruct (previous_step_validation twice_at_1 run_failed
              [step_run; step_run] step_run run_ls_dict (VStr "run") "s0")
    as (_ & _ & _ & _ & Hreject);
    [first [reflexivity | cbn; lia] .. |].
  destruct Hreject as [Hcall _]; [reflexivity|].
  rewrite Hcall. reflexivity.
Defined.

(** The procedure [runner]: the first call returns the [run] command with the
    step index at 1; fed back a zero exit code, the second call validates,
    renders [say done], and returns the command extracted from the
    completion. *)
Example runner_two_turns :
  step_workflow runner_agent quiet
  = (inr run_ls, with_workflow_step runner_agent 1, quiet)
  /\ (step_workflow (with_workflow_step runner_agent 1) run_succeeded).1.1
     = inr AgentFinishAction
  /\ workflow_data
       (step_workflow (with_workflow_step runner_agent 1) run_succeeded).1.2
     !! "s0" = Some ok_output
  /\ workflow_step
       (step_workflow (with_workflow_step runner_agent 1) run_succeeded).1.2
     = 2.
Proof. repeat split. Qed.

(** ** The candidate of parse_response *)

Section CandidateFacts.
Context `{Collaborators}.

(** [scan] is the search followed by the decoding of what it found. *)
Lemma scan_find_candidate (orig rest : string) (i depth start : Z) :
  scan orig rest i depth start
  = match find_candidate rest i depth start with
    | Some (s, e) => decode_candidate (Py.slice orig s e)
    | None => no_object
    end.
Proof.
  revert i depth start. induction rest as [|c rest IH]; intros i depth start.
  - reflexivity.
  - cbn [scan find_candidate].
    destruct (Ascii.eqb c open_brace); [apply IH|].
    destruct (Ascii.eqb c close_brace); [|apply IH].
    destruct ((depth - 1 =? 0) && negb (start =? -1)); [reflexivity | apply IH].
Qed.

(** Inside an open region, a found candidate starts at the recorded start
    and ends where the depth first returns to zero. *)
Lemma find_candidate_open (rest : string) (i depth start s e : Z) :
  1 <= depth ->
  start <> -1 ->
  find_candidate rest i depth start = Some (s, e) ->
  exists body post,
    rest = body +:+ post
    /\ closes_at_end depth body = true
    /\ s = start /\ e = i + Py.len body.
Proof.
  revert i depth. induction rest as [|c rest IH]; intros i depth Hd Hs Hfind.
  - discriminate.
  - cbn [find_candidate] in Hfind.
    destruct (Ascii.eqb c open_brace) eqn:Hopen.
    + destruct (Z.eqb_spec depth 0); [lia|].
      destruct (IH (i + 1) (depth + 1) ltac:(lia) Hs Hfind)
        as (body & post & -> & Hc & -> & ->).
      exists (String c body), post. rewrite append_cons, len_cons.
      cbn [closes_at_end]. rewrite Hopen. repeat split; try assumption; try lia; try (unfold Py.len; cbn; lia).
    + destruct (Ascii.eqb c close_brace) eqn:Hclose.
      * destruct (Z.eqb_spec (depth - 1) 0) as [Hz|Hz].
        -- destruct (Z.eqb_spec start (-1)); [contradiction|].
           cbn [andb negb] in Hfind. injection Hfind as <- <-.
           exists (String c EmptyString), rest.
           cbn [closes_at_end]. rewrite Hopen, Hclose.
           destruct (Z.eqb_spec (depth - 1) 0); [|contradiction].
           repeat split; try assumption; try lia; try (unfold Py.len; cbn; lia).
        -- cbn [andb] in Hfind.
           destruct (IH (i + 1) (depth - 1) ltac:(lia) Hs Hfind)
             as (body & post & -> & Hc & -> & ->).
           exists (String c body), post. rewrite append_cons, len_cons.
           cbn [closes_at_end]. rewrite Hopen, Hclose.
           destruct (Z.eqb_spec (depth - 1) 0); [contradiction|].
           repeat split; try assumption; try lia; try (unfold Py.len; cbn; lia).
      * destruct (IH (i + 1) depth Hd Hs Hfind)
          as (body & post & -> & Hc & -> & ->).
        exists (String c body), post. rewrite append_cons, len_cons.
        cbn [closes_at_end]. rewrite Hopen, Hclose.
        repeat split; try assumption; try lia; try (unfold Py.len; cbn; lia).
Qed.

(** Before any start is recorded, a found candidate is a balanced region
    that begins where the depth, never above zero so far, is zero. *)
Lemma find_candidate_closed (rest : string) (i depth s e : Z) :
  depth <= 0 ->
  0 <= i ->
  find_candidate rest i depth (-1) = Some (s, e) ->
  exists pre cand post,
    rest = pre +:+ cand +:+ post
    /\ stays_nonpositive depth pre = true
    /\ depth + depth_of (list_ascii_of_string pre) = 0
    /\ balanced_region cand = true
    /\ s = i + Py.len pre /\ e = i + Py.len pre + Py.len cand.
Proof.
  revert i depth. induction rest as [|c rest IH]; intros i depth Hd Hi Hfind.
  - discriminate.
  - cbn [find_candidate] in Hfind.
    destruct (Ascii.eqb c open_brace) eqn:Hopen.
    + destruct (Z.eqb_spec depth 0) as [Hz|Hz].
      * subst depth.
        destruct (find_candidate_open rest (i + 1) 1 i s e) as
          (body & post & -> & Hc & -> & ->); [lia | lia | exact Hfind |].
        exists EmptyString, (String c body), post.
        rewrite append_empty, append_cons. cbn [balanced_region].
        rewrite Hopen, Hc, len_cons. repeat split; try assumption; try lia; try (unfold Py.len; cbn; lia).
      * destruct (IH (i + 1) (depth + 1) ltac:(lia) ltac:(lia) Hfind)
          as (pre & cand & post & -> & Hst & Hdepth & Hb & -> & ->).
        exists (String c pre), cand, post. rewrite append_cons, len_cons.
        cbn [stays_nonpositive list_ascii_of_string depth_of].
        unfold delta. rewrite Hopen, Hst.
        destruct (Z.leb_spec (depth + 1) 0); [|lia].
        repeat split; try assumption; try lia; try (unfold Py.len; cbn; lia).
    + destruct (Ascii.eqb c close_brace) eqn:Hclose.
      * destruct (Z.eqb_spec (depth - 1) 0); [lia|]. cbn [andb] in Hfind.
        destruct (IH (i + 1) (depth - 1) ltac:(lia) ltac:(lia) Hfind)
          as (pre & cand & post & -> & Hst & Hdepth & Hb & -> & ->).
        exists (String c pre), cand, post. rewrite append_cons, len_cons.
        cbn [stays_nonpositive list_ascii_of_string depth_of].
        unfold delta. rewrite Hopen, Hclose, Hst.
        repeat split; try assumption; try lia; try (unfold Py.len; cbn; lia).
      * destruct (IH (i + 1) depth Hd ltac:(lia) Hfind)
          as (pre & cand & post & -> & Hst & Hdepth & Hb & -> & ->).
        exists (String c pre), cand, post. rewrite append_cons, len_cons.
        cbn [stays_nonpositive list_ascii_of_string depth_of].
        unfold delta. rewrite Hopen, Hclose, Hst.
        repeat split; try assumption; try lia; try (unfold Py.len; cbn; lia).
Qed.

(** When the search runs to the end, no region closes in the text by
    counting (the invariant is that of [scan_counting]). *)
Lemma find_candidate_none_counting (rest : string) (read : list ascii)
    (start : Z) :
  let l := (read ++ list_ascii_of_string rest)%list in
  (start =? -1) = negb (opened_before l (length read)) ->
  find_candidate rest (Z.of_nat (length read)) (depth_of read) start = None ->
  forall k, (length read <= k < length l)%nat -> region_closes_at l k = false.
Proof.
  revert read start. induction rest as [|c rest IH]; intros read start l.
  - subst l. cbn [list_ascii_of_string]. rewrite app_nil_r. intros _ _ k Hk. lia.
  - subst l. cbn [list_ascii_of_string find_candidate]. intros Hstart Hfind k Hk.
    assert (Hl : (read ++ c :: list_ascii_of_string rest
                  = (read ++ [c]) ++ list_ascii_of_string rest)%list)
      by (now rewrite <- app_assoc).
    assert (Hlen : length (read ++ [c]) = S (length read))
      by (rewrite length_app; cbn; lia).
    assert (Hi : Z.of_nat (length read) + 1 = Z.of_nat (length (read ++ [c])))
      by lia.
    assert (Hat : (read ++ c :: list_ascii_of_string rest) !! length read = Some c)
      by apply list_lookup_middle, eq_refl.
    assert (Htake : take (length read) (read ++ c :: list_ascii_of_string rest) = read)
      by apply take_app_length.
    assert (Hflag := opened_before_S (read ++ c :: list_ascii_of_string rest) (length read)).
    rewrite Hat, Htake in Hflag.
    assert (Hhere : forall flag depth' start',
               (start' =? -1)
               = negb (opened_before ((read ++ [c]) ++ list_ascii_of_string rest)
                                     (length (read ++ [c]))) ->
               depth' = depth_of (read ++ [c]) ->
               find_candidate rest (Z.of_nat (length read) + 1) depth' start' = None ->
               region_closes_at (read ++ c :: list_ascii_of_string rest) (length read) = flag ->
               flag = false ->
               region_closes_at (read ++ c :: list_ascii_of_string rest) k = false).
    { intros flag depth' start' Hs' -> Hf' Hreg ->.
      destruct (decide (k = length read)) as [->|Hne]; [exact Hreg|].
      rewrite Hl. rewrite Hi in Hf'. apply (IH (read ++ [c])%list start' Hs' Hf').
      rewrite <- Hl. lia. }
    destruct (Ascii.eqb c open_brace) eqn:Hopen.
    + apply Ascii.eqb_eq in Hopen. subst c.
      eapply Hhere; [| |exact Hfind|reflexivity|].
      * rewrite <- Hl, Hlen, Hflag. rewrite bool_decide_eq_true_2 by reflexivity.
        cbn [andb]. destruct (Z.eqb_spec (depth_of read) 0).
        -- rewrite orb_true_r. cbn [negb]. apply Z.eqb_neq. lia.
        -- now rewrite orb_false_r.
      * rewrite depth_of_snoc. reflexivity.
      * unfold region_closes_at. rewrite Hat.
        now rewrite bool_decide_eq_false_2 by discriminate.
    + destruct (Ascii.eqb c close_brace) eqn:Hclose.
      * apply Ascii.eqb_eq in Hclose. subst c.
        destruct ((depth_of read - 1 =? 0) && negb (start =? -1)) eqn:Hcond;
          [discriminate|].
        eapply Hhere; [| |exact Hfind|reflexivity|].
        -- rewrite <- Hl, Hlen, Hflag.
           rewrite bool_decide_eq_false_2 by discriminate.
           cbn [andb]. now rewrite orb_false_r.
        -- rewrite depth_of_snoc. reflexivity.
        -- unfold region_closes_at. rewrite Hat, take_snoc, depth_of_snoc.
           rewrite bool_decide_eq_true_2 by reflexivity.
           change (delta close_brace) with (-1).
           replace (depth_of read + -1) with (depth_of read - 1) by lia.
           rewrite Hstart, negb_involutive in Hcond. exact Hcond.
      * eapply Hhere; [| |exact Hfind|reflexivity|].
        -- rewrite <- Hl, Hlen, Hflag. rewrite bool_decide_eq_false_2.
           ++ cbn [andb]. now rewrite orb_false_r.
           ++ intros [= ->]. now rewrite Ascii.eqb_refl in Hopen.
        -- rewrite depth_of_snoc. unfold delta. rewrite Hopen, Hclose. lia.
        -- unfold region_closes_at. rewrite Hat. rewrite bool_decide_eq_false_2.
           ++ reflexivity.
           ++ intros [= ->]. now rewrite Ascii.eqb_refl in Hclose.
Qed.

(** Conversely, when no region closes by counting, the search runs to the
    end. *)
Lemma find_candidate_counting_none (rest : string) (read : list ascii) (start : Z) :
  let l := (read ++ list_ascii_of_string rest)%list in
  (start =? -1) = negb (opened_before l (length read)) ->
  (forall k, (length read <= k < length l)%nat -> region_closes_at l k = false) ->
  find_candidate rest (Z.of_nat (length read)) (depth_of read) start = None.
Proof.
  revert read start. induction rest as [|c rest IH]; intros read start l.
  - reflexivity.
  - subst l. cbn [list_ascii_of_string find_candidate]. intros Hstart Hnone.
    assert (Hl : (read ++ c :: list_ascii_of_string rest
                  = (read ++ [c]) ++ list_ascii_of_string rest)%list)
      by (now rewrite <- app_assoc).
    assert (Hlen : length (read ++ [c]) = S (length read))
      by (rewrite length_app; cbn; lia).
    assert (Hi : Z.of_nat (length read) + 1 = Z.of_nat (length (read ++ [c])))
      by lia.
    assert (Hat : (read ++ c :: list_ascii_of_string rest) !! length read = Some c)
      by apply list_lookup_middle, eq_refl.
    assert (Htake : take (length read) (read ++ c :: list_ascii_of_string rest) = read)
      by apply take_app_length.
    assert (Hnext : forall k,
               (length (read ++ [c]) <= k
                < length ((read ++ [c]) ++ list_ascii_of_string rest))%nat ->
               region_closes_at ((read ++ [c]) ++ list_ascii_of_string rest) k = false).
    { intros k Hk. rewrite <- Hl. apply Hnone. rewrite Hl. lia. }
    assert (Hflag := opened_before_S (read ++ c :: list_ascii_of_string rest) (length read)).
    rewrite Hat, Htake in Hflag.
    destruct (Ascii.eqb c open_brace) eqn:Hopen.
    + apply Ascii.eqb_eq in Hopen. subst c.
      rewrite Hi. replace (depth_of read + 1) with (depth_of (read ++ [open_brace]))
        by (rewrite depth_of_snoc; reflexivity).
      apply IH; [|exact Hnext].
      rewrite <- Hl, Hlen, Hflag. rewrite bool_decide_eq_true_2 by reflexivity.
      cbn [andb]. destruct (Z.eqb_spec (depth_of read) 0).
      * rewrite orb_true_r. cbn [negb]. apply Z.eqb_neq. lia.
      * now rewrite orb_false_r.
    + destruct (Ascii.eqb c close_brace) eqn:Hclose.
      * apply Ascii.eqb_eq in Hclose. subst c.
        assert (Hhere : region_closes_at
                          (read ++ close_brace :: list_ascii_of_string rest)
                          (length read) = false).
        { apply Hnone. rewrite length_app. cbn [length]. lia. }
        unfold region_closes_at in Hhere.
        rewrite Hat, take_snoc, depth_of_snoc in Hhere.
        rewrite bool_decide_eq_true_2 in Hhere by reflexivity.
        cbn [andb] in Hhere. change (delta close_brace) with (-1) in Hhere.
        replace (depth_of read + -1) with (depth_of read - 1) in Hhere by lia.
        rewrite Hstart, negb_involutive, Hhere.
        rewrite Hi.
        replace (depth_of read - 1) with (depth_of (read ++ [close_brace]))
          by (rewrite depth_of_snoc; reflexivity).
        apply IH; [|exact Hnext].
        rewrite <- Hl, Hlen, Hflag.
        rewrite bool_decide_eq_false_2 by discriminate.
        cbn [andb]. now rewrite orb_false_r.
      * rewrite Hi.
        replace (depth_of read) with (depth_of (read ++ [c])) at 1
          by (rewrite depth_of_snoc; unfold delta; rewrite Hopen, Hclose; lia).
        apply IH; [|exact Hnext].
        rewrite <- Hl, Hlen, Hflag.
        rewrite bool_decide_eq_false_2.
        -- cbn [andb]. now rewrite orb_false_r.
        -- intros [= ->]. now rewrite Ascii.eqb_refl in Hopen.
Qed.

End CandidateFacts.

Section CandidateProperties.
Context `{Collaborators}.

Lemma no_region_closes_search (text : string) :
  no_region_closes text = true <-> find_candidate text 0 0 (-1) = None.
Proof.
  split.
  - intros Hno. apply (find_candidate_counting_none text [] (-1)).
    + reflexivity.
    + intros k Hk. cbn [app length] in *. unfold no_region_closes in Hno.
      rewrite forallb_forall in Hno. apply negb_true_iff, Hno.
      apply in_seq. lia.
  - intros Hnone. unfold no_region_closes. apply forallb_forall.
    intros k Hk. apply in_seq in Hk. apply negb_true_iff.
    apply (find_candidate_none_counting text [] (-1)).
    + reflexivity.
    + exact Hnone.
    + cbn [app length]. lia.
Qed.

(** X1. [parse_response] decodes at most one piece of the text, and that
    piece is the first balanced region: either no region closes in the text
    (by counting delimiters) and the no-object error is raised, or the text
    is [pre], a balanced region [cand], and [post], where the depth over
    [pre] never rises above zero and ends at zero, and the result is exactly
    what decoding [cand] gives. *)
Theorem parse_response_decodes_first_region (text : string) :
  (no_region_closes text = true /\ parse_response text = no_object)
  \/ (no_region_closes text = false
      /\ exists pre cand post,
           text = pre +:+ cand +:+ post
           /\ stays_nonpositive 0 pre = true
           /\ depth_of (list_ascii_of_string pre) = 0
           /\ balanced_region cand = true
           /\ parse_response text = decode_candidate cand).
Proof.
  unfold parse_response. rewrite scan_find_candidate.
  destruct (find_candidate text 0 0 (-1)) as [[s e]|] eqn:Hfind.
  - right. split.
    + destruct (no_region_closes text) eqn:Hno; [|reflexivity].
      apply no_region_closes_search in Hno. congruence.
    + destruct (find_candidate_closed text 0 0 s e) as
        (pre & cand & post & Htext & Hst & Hdepth & Hb & -> & ->);
        [lia | lia | exact Hfind |].
      exists pre, cand, post.
      split; [exact Htext|]. split; [exact Hst|]. split; [lia|].
      split; [exact Hb|].
      f_equal. rewrite Htext.
      replace (0 + Py.len pre + Py.len cand) with (Py.len pre + Py.len cand) by lia.
      replace (0 + Py.len pre) with (Py.len pre) by lia.
      apply slice_middle.
  - left. split; [|reflexivity]. now apply no_region_closes_search.
Qed.

Lemma decode_candidate_not_raw (response msg : string) :
  decode_candidate response <> inl (JSONDecodeError msg).
Proof.
  unfold decode_candidate.
  destruct (json_loads response) as [[]|d]; try discriminate.
  destruct (action_from_dict d) as [[]|a]; discriminate.
Qed.

(** X2. Whatever [json.loads] and the factory do, [parse_response] never
    lets a [JSONDecodeError] out: a decode error always arrives wrapped in an
    [LLMOutputError]. *)
Theorem parse_response_never_raw_decode_error (text msg : string) :
  parse_response text <> inl (JSONDecodeError msg).
Proof.
  unfold parse_response. rewrite scan_find_candidate.
  destruct (find_candidate text 0 0 (-1)) as [[s e]|].
  - apply decode_candidate_not_raw.
  - discriminate.
Qed.

End CandidateProperties.

(** ** What a call of the driver may change *)

Lemma len_value_nonneg (v : value) (n : Z) : Py.len_value v = inr n -> 0 <= n.
Proof.
  destruct v; cbn; intros [= <-]; try discriminate;
    first [apply len_nonneg | lia].
Qed.

Section FrameFacts.
Context `{Collaborators}.

(** The loop writes under the name of the previous step and nowhere else. *)
Lemma update_loop_writes (prev : StepDefinition)
    (info : list (Action * Observation)) (self : MicroAgent) (state : State) :
  exists r data,
    update_loop prev info self state = (r, with_workflow_data self data, state)
    /\ forall key, step_name prev <> Some key ->
         data !! key = workflow_data self !! key.
Proof.
  revert self. induction info as [|[a o] info IH]; intros self.
  - exists (inr true), (workflow_data self). cbn.
    now rewrite with_workflow_data_id.
  - cbn [update_loop]. unfold bind at 1, lift at 1.
    destruct (do_of prev) as [e|do_].
    { exists (inl e), (workflow_data self). now rewrite with_workflow_data_id. }
    destruct (Py.contains do_ "action"); [|apply IH].
    unfold bind at 1, lift at 1. unfold bind at 1, lift at 1.
    destruct (Py.getitem do_ "action") as [e|expected].
    { exists (inl e), (workflow_data self). now rewrite with_workflow_data_id. }
    destruct (Py.str_eq (action_attr a) expected); [|apply IH].
    unfold bind at 1, lift at 1, name_of.
    destruct (step_name prev) as [name|] eqn:Hname.
    2:{ exists (inl (KeyError "name")), (workflow_data self).
        now rewrite with_workflow_data_id. }
    unfold bind at 1, set_workflow_data at 1.
    destruct (validate_observation a o); cbn [negb].
    + match goal with |- context [update_loop prev info ?s state] =>
        destruct (IH s) as (r & data & -> & Hdata) end.
      exists r, data. split; [reflexivity|].
      intros key Hkey. rewrite (Hdata key Hkey). cbn [workflow_data].
      apply lookup_insert_ne. congruence.
    + eexists _, _. split; [reflexivity|].
      intros key Hkey. apply lookup_insert_ne. congruence.
Qed.

(** A call changes the agent in two places at most: the step index, by zero
    or one, and the entry of [workflow_data] under the name of the step
    before the current one. *)
Lemma step_workflow_shape (self : MicroAgent) (state : State) :
  exists r data k state',
    step_workflow self state
    = (r, with_workflow_step (with_workflow_data self data) k, state')
    /\ (k = workflow_step self \/ k = workflow_step self + 1)
    /\ (forall key,
          (forall wf prev, workflow_of self = inr wf ->
             0 < workflow_step self < Z.of_nat (length wf) ->
             wf !! Z.to_nat (workflow_step self - 1) = Some prev ->
             step_name prev <> Some key) ->
          data !! key = workflow_data self !! key)
    /\ (forall wf, workflow_of self = inr wf ->
          Z.of_nat (length wf) <= workflow_step self ->
          k = workflow_step self)
    /\ updated_info state' = updated_info state
    /\ num_of_chars state <= num_of_chars state'.
Proof.
  assert (Hid : forall s : MicroAgent,
             s = with_workflow_step (with_workflow_data s (workflow_data s))
                                    (workflow_step s)) by (now intros []).
  destruct (workflow_of self) as [e|wf] eqn:Hwf.
  { exists (inl e), (workflow_data self), (workflow_step self), state.
    split; [|split; [now left|]; split; [reflexivity|];
             split; [discriminate|]; split; [reflexivity | lia]].
    unfold step_workflow, bind at 1, get_self. unfold bind at 1, lift at 1.
    rewrite Hwf. now rewrite <- Hid. }
  destruct (Z.le_gt_cases (Z.of_nat (length wf)) (workflow_step self)) as [Hge|Hlt].
  { exists (inr AgentFinishAction), (workflow_data self), (workflow_step self), state.
    split; [|split; [now left|]; split; [reflexivity|];
             split; [reflexivity|]; split; [reflexivity | lia]].
    rewrite (step_workflow_finished self state wf) by assumption.
    now rewrite <- Hid. }
  rewrite (step_workflow_unfinished self state wf) by (assumption || lia).
  assert (Hval : exists r data,
             validation self self state = (r, with_workflow_data self data, state)
             /\ forall key,
                  (forall wf prev, workflow_of self = inr wf ->
                     0 < workflow_step self < Z.of_nat (length wf) ->
                     wf !! Z.to_nat (workflow_step self - 1) = Some prev ->
                     step_name prev <> Some key) ->
                  data !! key = workflow_data self !! key).
  { unfold validation. destruct (Z.gtb_spec (workflow_step self) 0) as [Hpos|Hzero].
    - unfold update_previous_workflow_step, bind at 1, get_self.
      unfold bind at 1, lift at 1. rewrite Hwf. unfold bind at 1, lift at 1.
      destruct (Py.index wf (workflow_step self - 1)) as [e|prev] eqn:Hprev.
      { exists (inl e), (workflow_data self).
        now rewrite with_workflow_data_id. }
      unfold bind at 1, get_state.
      destruct (update_loop_writes prev (updated_info state) self state)
        as (r & data & -> & Hdata).
      exists r, data. split; [reflexivity|].
      intros key Hkey. apply Hdata. apply (Hkey wf prev eq_refl); [lia|].
      unfold Py.index in Hprev.
      destruct (Z.ltb_spec (workflow_step self - 1) 0); [lia|].
      destruct ((0 <=? workflow_step self - 1)
                && (workflow_step self - 1 <? Z.of_nat (length wf)));
        [|discriminate].
      destruct (wf !! Z.to_nat (workflow_step self - 1)); [|discriminate].
      now injection Hprev as ->.
    - exists (inr true), (workflow_data self). unfold ret.
      now rewrite with_workflow_data_id. }
  destruct Hval as (r & data & -> & Hdata).
  destruct r as [e|[|]].
  - exists (inl e), data, (workflow_step self), state.
    split; [now destruct self|]. split; [now left|]. split; [intros key Hkey; apply Hdata; intros wf0 prev0 Hw0;
             apply Hkey; congruence|].
    split; [reflexivity|]. split; [reflexivity | lia].
  - cbn [with_workflow_data workflow_step].
    destruct (Py.index wf (workflow_step self)) as [e|step].
    + exists (inl e), data, (workflow_step self), state.
      split; [now destruct self|]. split; [now left|]. split; [intros key Hkey; apply Hdata; intros wf0 prev0 Hw0;
             apply Hkey; congruence|].
      split; [reflexivity|]. split; [reflexivity | lia].
    + pose proof (perform_frame step
                    (with_workflow_step (with_workflow_data self data)
                                        (workflow_step self + 1)) state) as Hself.
      destruct (perform step
                  (with_workflow_step (with_workflow_data self data)
                                      (workflow_step self + 1)) state)
        as [[r self'] state'] eqn:Hperform.
      cbn [fst snd] in Hself. subst self'.
      exists r, data, (workflow_step self + 1), state'.
      split; [reflexivity|].
      split; [now right|]. split; [intros key Hkey; apply Hdata; intros wf0 prev0 Hw0;
             apply Hkey; congruence|]. split; [intros wf0 [= <-] ?; lia|].
      revert Hperform. unfold perform.
      destruct (Py.contains (default ∅ (step_do step)) "action").
      { intros [= _ <-]. split; [reflexivity | lia]. }
      destruct (Py.contains (default ∅ (step_do step)) "prompt").
      2:{ intros [= _ <-]. split; [reflexivity | lia]. }
      unfold bind at 1, lift at 1.
      destruct (Py.getitem (default ∅ (step_do step)) "prompt") as [e|pr].
      { intros [= _ <-]. split; [reflexivity | lia]. }
      unfold prompt_to_action, bind, get_self, get_state, lift, add_num_of_chars.
      destruct (render pr state _ _); [intros [= _ <-]; split; [reflexivity | lia]|].
      destruct (completion s); [intros [= _ <-]; split; [reflexivity | lia]|].
      destruct (Py.len_value pr) as [e|n] eqn:Hn;
        [intros [= _ <-]; split; [reflexivity | lia]|].
      intros [= _ <-]. cbn. split; [reflexivity|].
      pose proof (len_value_nonneg pr n Hn). pose proof (len_nonneg s0). lia.
  - exists (inr AgentRejectAction), data, (workflow_step self), state.
    split; [now destruct self|]. split; [now left|]. split; [intros key Hkey; apply Hdata; intros wf0 prev0 Hw0;
             apply Hkey; congruence|].
    split; [reflexivity|]. split; [reflexivity | lia].
Qed.

End FrameFacts.

Section FrameProperties.
Context `{Collaborators}.

Lemma prompt_to_action_state (p inputs : value) (self : MicroAgent) (state : State) :
  updated_info (prompt_to_action p inputs self state).2 = updated_info state
  /\ num_of_chars state <= num_of_chars (prompt_to_action p inputs self state).2.
Proof.
  unfold prompt_to_action, bind, get_self, get_state, lift, add_num_of_chars.
  destruct (render p state (delegates self) inputs); [cbn; split; [reflexivity | lia]|].
  destruct (completion s); [cbn; split; [reflexivity | lia]|].
  destruct (Py.len_value p) as [e|n] eqn:Hn; [cbn; split; [reflexivity | lia]|].
  cbn. split; [reflexivity|].
  pose proof (len_value_nonneg p n Hn). pose proof (len_nonneg s0). lia.
Qed.

(** X3. Whichever way [step] goes (the workflow, or the agent's own prompt)
    and however it ends, it leaves the agent's definition, prompt and
    delegates as they were, it does not touch the log of the state, and the
    character count of the state never goes down. *)
Theorem step_keeps_definition_and_log (self : MicroAgent) (state : State) :
  agent_definition (step self state).1.2 = agent_definition self
  /\ prompt (step self state).1.2 = prompt self
  /\ delegates (step self state).1.2 = delegates self
  /\ updated_info (step self state).2 = updated_info state
  /\ num_of_chars state <= num_of_chars (step self state).2.
Proof.
  unfold step, bind at 1 2 3 4 5, get_self.
  destruct (def_workflow (agent_definition self)).
  - destruct (step_workflow_shape self state)
      as (r & data & k & state' & -> & _ & _ & _ & Hinfo & Hchars).
    cbn. auto.
  - rewrite prompt_to_action_frame.
    destruct (prompt_to_action_state (VStr (prompt self)) (VDict ∅) self state).
    auto.
Qed.

(** X4. A call of [step_workflow] leaves every entry of [workflow_data]
    alone except, at most, the one under the name of the step before the
    current one. *)
Theorem step_workflow_writes_previous_name (self : MicroAgent) (state : State)
    (wf : list StepDefinition) (key : string) :
  workflow_of self = inr wf ->
  (forall prev, 0 < workflow_step self < Z.of_nat (length wf) ->
     wf !! Z.to_nat (workflow_step self - 1) = Some prev ->
     step_name prev <> Some key) ->
  workflow_data (step_workflow self state).1.2 !! key
  = workflow_data self !! key.
Proof.
  intros Hwf Hkey.
  destruct (step_workflow_shape self state)
    as (r & data & k & state' & -> & _ & Hdata & _).
  cbn. apply Hdata. intros wf0 prev Hwf0. rewrite Hwf in Hwf0.
  injection Hwf0 as <-. apply Hkey.
Qed.

(** One call keeps the invariant of a run. *)
Lemma step_workflow_invariant (wf : list StepDefinition) (self : MicroAgent)
    (state : State) :
  workflow_of self = inr wf ->
  0 <= workflow_step self <= Z.of_nat (length wf) ->
  data_of_passed_steps wf self ->
  workflow_of (step_workflow self state).1.2 = inr wf
  /\ 0 <= workflow_step (step_workflow self state).1.2 <= Z.of_nat (length wf)
  /\ data_of_passed_steps wf (step_workflow self state).1.2.
Proof.
  intros Hwf Hbounds Hdata.
  destruct (step_workflow_shape self state)
    as (r & data & k & state' & Hcall & Hk & Hframe & Hfin & _).
  rewrite !Hcall. cbn [fst snd].
  assert (Hk' : workflow_step self <= k <= Z.of_nat (length wf)).
  { destruct (Z.le_gt_cases (Z.of_nat (length wf)) (workflow_step self)).
    - rewrite (Hfin wf Hwf) by assumption. lia.
    - destruct Hk as [-> | ->]; lia. }
  split; [exact Hwf|]. split; [cbn; lia|].
  intros key Hsome. cbn [with_workflow_step with_workflow_data workflow_data
                           workflow_step] in *.
  destruct (decide (0 < workflow_step self < Z.of_nat (length wf))) as [Hin|Hout].
  - assert (Hlt : (Z.to_nat (workflow_step self - 1) < length wf)%nat) by lia.
    apply lookup_lt_is_Some_2 in Hlt as [prev Hprev].
    destruct (decide (step_name prev = Some key)) as [Hname|Hname].
    + exists (Z.to_nat (workflow_step self - 1)), prev.
      split; [lia|]. split; assumption.
    + rewrite Hframe in Hsome.
      * destruct (Hdata key Hsome) as (j & step & Hj & Hstep & Hn).
        exists j, step. split; [lia|]. split; assumption.
      * intros wf0 prev0 Hwf0 _ Hprev0. rewrite Hwf in Hwf0.
        injection Hwf0 as <-. congruence.
  - rewrite Hframe in Hsome.
    + destruct (Hdata key Hsome) as (j & step & Hj & Hstep & Hn).
      exists j, step. split; [lia|]. split; assumption.
    + intros wf0 prev0 Hwf0 Hin. rewrite Hwf in Hwf0.
      injection Hwf0 as <-. contradiction.
Qed.

(** X5. From construction on, whatever the controller feeds back and however
    the calls end, the step index stays between 0 and the length of the
    procedure, and every key of [workflow_data] is the name of a step the
    index has already passed. *)
Theorem run_keeps_invariants (d : AgentDefinition) (p : string)
    (self : MicroAgent) (wf : list StepDefinition) (feeds : list State) :
  __init__ d p = inr self ->
  def_workflow d = Some wf ->
  0 <= workflow_step (run self feeds).2 <= Z.of_nat (length wf)
  /\ data_of_passed_steps wf (run self feeds).2.
Proof.
  intros Hinit Hdef.
  destruct (init_fresh d p self Hinit) as [Hd Hzero].
  assert (Hwf : workflow_of self = inr wf)
    by (unfold workflow_of; now rewrite Hd, Hdef).
  assert (Hbounds : 0 <= workflow_step self <= Z.of_nat (length wf)) by lia.
  assert (Hdata : data_of_passed_steps wf self).
  { intros key [o Ho]. unfold __init__ in Hinit.
    destruct (def_name d); [|discriminate].
    destruct (all_microagents !! s); [|discriminate].
    injection Hinit as <-. cbn in Ho. now rewrite lookup_empty in Ho. }
  clear Hinit Hd Hzero. revert self Hwf Hbounds Hdata.
  induction feeds as [|state feeds IH]; intros self Hwf Hbounds Hdata.
  - cbn. auto.
  - cbn [run].
    destruct (step_workflow_invariant wf self state Hwf Hbounds Hdata)
      as (Hwf' & Hbounds' & Hdata').
    destruct (step_workflow self state) as [[r self'] state'].
    cbn [fst snd] in *.
    specialize (IH self' Hwf' Hbounds' Hdata').
    destruct (run self' feeds) as [rs final]. exact IH.
Qed.

End FrameProperties.

(** ** Edge cases of previous-step validation, construction, prompt steps *)

Section EdgeProperties.
Context `{Collaborators}.

Lemma update_loop_prompt_step (prev : StepDefinition) (do_ : gmap string value)
    (info : list (Action * Observation)) (self : MicroAgent) (state : State) :
  step_do prev = Some do_ ->
  Py.contains do_ "action" = false ->
  update_loop prev info self state = (inr true, self, state).
Proof.
  intros Hdo Hact. induction info as [|[a o] info IH]; [reflexivity|].
  cbn [update_loop]. unfold bind at 1, lift at 1, do_of. now rewrite Hdo, Hact.
Qed.

(** X6. A previous step driven by a prompt (its mapping has no [action]
    entry) is neither recorded nor checked: validation succeeds and leaves
    the agent as it was, whatever the log holds, failed commands included. *)
Theorem prompt_step_is_not_validated (self : MicroAgent) (state : State)
    (wf : list StepDefinition) (prev : StepDefinition)
    (do_ : gmap string value) :
  workflow_of self = inr wf ->
  0 < workflow_step self ->
  wf !! Z.to_nat (workflow_step self - 1) = Some prev ->
  step_do prev = Some do_ ->
  Py.contains do_ "action" = false ->
  update_previous_workflow_step self state = (inr true, self, state).
Proof.
  intros Hwf Hpos Hprev Hdo Hact.
  rewrite (update_previous_unfold self state wf prev) by assumption.
  now apply (update_loop_prompt_step prev do_).
Qed.

Lemma update_loop_nameless (prev : StepDefinition) (do_ : gmap string value)
    (expected : value) (info : list (Action * Observation))
    (self : MicroAgent) (state : State) :
  step_do prev = Some do_ ->
  do_ !! "action" = Some expected ->
  step_name prev = None ->
  update_loop prev info self state
  = (if existsb (matches prev) info then inl (KeyError "name") else inr true,
     self, state).
Proof.
  intros Hdo Hact Hname. induction info as [|[a o] info IH]; [reflexivity|].
  cbn [update_loop existsb]. unfold bind at 1, lift at 1, do_of. rewrite Hdo.
  unfold Py.contains. rewrite Hact.
  unfold bind at 1, lift at 1. unfold bind at 1, lift at 1, Py.getitem.
  rewrite Hact, (matches_fixed prev do_ expected a o Hdo Hact).
  destruct (Py.str_eq (action_attr a) expected); cbn [orb].
  - unfold bind at 1, lift at 1, name_of. now rewrite Hname.
  - exact IH.
Qed.

(** X7. When the previous step has a fixed action but no [name], a log
    without a matching pair passes validation, and a log with one makes the
    call raise [KeyError] for [name] before anything is written: the agent
    and the state are unchanged, the step index included. *)
Theorem nameless_step_key_error (self : MicroAgent) (state : State)
    (wf : list StepDefinition) (prev : StepDefinition)
    (do_ : gmap string value) (expected : value) :
  workflow_of self = inr wf ->
  0 < workflow_step self < Z.of_nat (length wf) ->
  wf !! Z.to_nat (workflow_step self - 1) = Some prev ->
  step_do prev = Some do_ ->
  do_ !! "action" = Some expected ->
  step_name prev = None ->
  update_previous_workflow_step self state
  = (if existsb (matches prev) (updated_info state)
     then inl (KeyError "name") else inr true,
     self, state)
  /\ (existsb (matches prev) (updated_info state) = true ->
      step_workflow self state = (inl (KeyError "name"), self, state)).
Proof.
  intros Hwf [Hpos Hlt] Hprev Hdo Hact Hname.
  assert (Hupd : update_previous_workflow_step self state
                 = (if existsb (matches prev) (updated_info state)
                    then inl (KeyError "name") else inr true,
                    self, state)).
  { rewrite (update_previous_unfold self state wf prev) by assumption.
    now apply (update_loop_nameless prev do_ expected). }
  split; [exact Hupd|].
  intros Hmatch.
  rewrite (step_workflow_unfinished self state wf) by assumption.
  unfold validation. destruct (Z.gtb_spec (workflow_step self) 0); [|lia].
  now rewrite Hupd, Hmatch.
Qed.

(** X8. A successfully built agent starts at step 0 with no collected data;
    its delegates are the registry without the agent itself; and a
    definition whose name is not in the registry cannot be built: [__init__]
    raises [KeyError] with that name. *)
Theorem init_delegates (d : AgentDefinition) (p : string) :
  (forall self, __init__ d p = inr self ->
     exists name,
       def_name d = Some name
       /\ is_Some (all_microagents !! name)
       /\ delegates self !! name = None
       /\ (forall other, other <> name ->
             delegates self !! other = all_microagents !! other)
       /\ workflow_step self = 0
       /\ workflow_data self = ∅)
  /\ (forall name, def_name d = Some name ->
        all_microagents !! name = None ->
        __init__ d p = inl (KeyError name)).
Proof.
  split.
  - intros self Hinit. unfold __init__ in Hinit.
    destruct (def_name d) as [name|]; [|discriminate].
    destruct (all_microagents !! name) eqn:Hreg; [|discriminate].
    injection Hinit as <-. exists name. cbn.
    split; [reflexivity|]. split; [now rewrite Hreg|].
    split; [apply lookup_delete_eq|].
    split; [|split; reflexivity].
    intros other Hne. apply lookup_delete_ne. congruence.
  - intros name Hname Hreg. unfold __init__. now rewrite Hname, Hreg.
Qed.


End EdgeProperties.

(** ** GithubPushAction.run *)

(** X10. The push reports a successful command exactly when the token is
    set and not empty and all three commands succeeded: adding the temporary
    remote, pushing to it, and removing it.  A failed push is never reported
    as a success, and neither is a push whose remote could not be removed. *)
Theorem push_succeeds_iff_all_succeed (self : Github.GithubPushAction)
    (github_token : option string) (choices : list string)
    (run_command : list string -> string -> Github.Observation) :
  Github.succeeded (Github.run self github_token choices run_command).1 = true
  <-> exists token,
        github_token = Some token
        /\ token <> EmptyString
        /\ Github.succeeded
             (run_command []
                (Github.add_command self token (Github.remote_name choices)))
           = true
        /\ Github.succeeded
             (run_command
                [Github.add_command self token (Github.remote_name choices)]
                (Github.push_command self (Github.remote_name choices)))
           = true
        /\ Github.succeeded
             (run_command
                [Github.add_command self token (Github.remote_name choices);
                 Github.push_command self (Github.remote_name choices)]
                (Github.remove_command (Github.remote_name choices)))
           = true.
Proof.
  unfold Github.run. split.
  - destruct github_token as [token|]; [|discriminate].
    destruct (String.eqb_spec token EmptyString) as [->|Hne]; [discriminate|].
    destruct (Github.succeeded (run_command [] _)) eqn:Hadd;
      cbn [negb]; [|cbn [fst]; congruence].
    destruct (Github.succeeded (run_command [_; _] _)) eqn:Hremove;
      cbn [negb]; [|cbn [fst]; congruence].
    cbn [fst]. intros Hpush. exists token. auto.
  - intros (token & -> & Hne & Hadd & Hpush & Hremove).
    destruct (String.eqb_spec token EmptyString); [contradiction|].
    rewrite Hadd. cbn [negb]. rewrite Hremove. exact Hpush.
Qed.

(** X11. With a token, the commands handed to the controller are the
    addition of the temporary remote alone when that fails (its observation
    is then the result), and otherwise the addition, the push and the
    removal of that same remote, in this order: nothing is pushed to a remote
    that was not added, and a remote that was added is always removed,
    whatever the push gave. *)
Theorem push_removes_the_remote_it_added (self : Github.GithubPushAction)
    (token : string) (choices : list string)
    (run_command : list string -> string -> Github.Observation) :
  token <> EmptyString ->
  (Github.succeeded
     (run_command []
        (Github.add_command self token (Github.remote_name choices))) = false ->
   Github.run self (Some token) choices run_command
   = (run_command []
        (Github.add_command self token (Github.remote_name choices)),
      [Github.add_command self token (Github.remote_name choices)]))
  /\ (Github.succeeded
        (run_command []
           (Github.add_command self token (Github.remote_name choices))) = true ->
      (Github.run self (Some token) choices run_command).2
      = [Github.add_command self token (Github.remote_name choices);
         Github.push_command self (Github.remote_name choices);
         Github.remove_command (Github.remote_name choices)]).
Proof.
  intros Hne. unfold Github.run.
  destruct (String.eqb_spec token EmptyString); [contradiction|].
  split; intros Hadd; rewrite Hadd; cbn [negb]; [reflexivity|].
  now destruct (Github.succeeded (run_command [_; _] _)).
Qed.

(** ** Singleton.__call__ *)

Lemma setattrs_cons (k : string) (v : value) (kwargs : list (string * value))
    (instance : gmap string value) :
  Config.setattrs ((k, v) :: kwargs) instance
  = Config.setattrs kwargs (<[k := v]> instance).
Proof. reflexivity. Qed.

Lemma setattrs_other (kwargs : list (string * value))
    (instance : gmap string value) (key : string) :
  key ∉ kwargs.*1 -> Config.setattrs kwargs instance !! key = instance !! key.
Proof.
  revert instance. induction kwargs as [|[k v] kwargs IH]; intros instance Hnot.
  - reflexivity.
  - cbn in Hnot. apply not_elem_of_cons in Hnot as [Hne Hnot].
    rewrite setattrs_cons, IH by assumption. now apply lookup_insert_ne.
Qed.

Lemma setattrs_set (kwargs : list (string * value))
    (instance : gmap string value) (key : string) (v : value) :
  NoDup kwargs.*1 -> (key, v) ∈ kwargs ->
  Config.setattrs kwargs instance !! key = Some v.
Proof.
  revert instance. induction kwargs as [|[k w] kwargs IH]; intros instance Hnd Hin.
  - now apply elem_of_nil in Hin.
  - cbn in Hnd. apply NoDup_cons in Hnd as [Hfresh Hnd].
    rewrite setattrs_cons.
    apply elem_of_cons in Hin as [[= -> ->]|Hin].
    + rewrite setattrs_other by assumption. apply lookup_insert_eq.
    + now apply IH.
Qed.

(** X12. Calling a singleton class that already has its instance constructs
    nothing: the one instance is returned with the keyword arguments set on
    it and every other attribute as it was (not reset to a default), the
    positional arguments are ignored, and the instances of the other classes
    are untouched. *)
Theorem singleton_call_updates_in_place
    (construct : list value -> list (string * value) ->
                 gmap string (gmap string value) ->
                 result (gmap string value) * gmap string (gmap string value))
    (cls : string) (args : list value) (kwargs : list (string * value))
    (instances : gmap string (gmap string value))
    (instance : gmap string value) :
  instances !! cls = Some instance ->
  NoDup kwargs.*1 ->
  exists updated,
    Config.Singleton_call construct cls args kwargs instances
    = (inr updated, <[cls := updated]> instances)
    /\ (forall key v, (key, v) ∈ kwargs -> updated !! key = Some v)
    /\ (forall key, key ∉ kwargs.*1 -> updated !! key = instance !! key)
    /\ (forall other, other <> cls ->
          (Config.Singleton_call construct cls args kwargs instances).2 !! other
          = instances !! other).
Proof.
  intros Hcls Hnd. exists (Config.setattrs kwargs instance).
  unfold Config.Singleton_call. rewrite Hcls.
  split; [reflexivity|]. split; [|split].
  - intros key v. now apply setattrs_set.
  - intros key. apply setattrs_other.
  - intros other Hne. cbn. apply lookup_insert_ne. congruence.
Qed.

(** X13. Updating a singleton twice with the same keyword arguments is the
    same as updating it once. *)
Theorem singleton_call_idempotent
    (construct : list value -> list (string * value) ->
                 gmap string (gmap string value) ->
                 result (gmap string value) * gmap string (gmap string value))
    (cls : string) (args args' : list value) (kwargs : list (string * value))
    (instances : gmap string (gmap string value))
    (instance : gmap string value) :
  instances !! cls = Some instance ->
  NoDup kwargs.*1 ->
  Config.Singleton_call construct cls args' kwargs
    (Config.Singleton_call construct cls args kwargs instances).2
  = Config.Singleton_call construct cls args kwargs instances.
Proof.
  intros Hcls Hnd. unfold Config.Singleton_call at 2 3. rewrite Hcls. cbn [snd].
  unfold Config.Singleton_call. rewrite lookup_insert_eq.
  assert (Hsame : Config.setattrs kwargs (Config.setattrs kwargs instance)
                  = Config.setattrs kwargs instance).
  { apply map_eq. intros key.
    destruct (decide (key ∈ kwargs.*1)) as [Hin|Hnot].
    - apply list_elem_of_fmap in Hin as ([k v] & -> & Hin). cbn.
      now rewrite !(setattrs_set kwargs _ k v).
    - now rewrite setattrs_other. }
  rewrite Hsame. now rewrite insert_insert_eq.
Qed.

(** ** finalize_config *)








Ltac finalize_unfold_in H :=
  unfold Config.finalize_config, Config.local_sandbox_path,
    Config.rewrite_mount_path, Config.default_embedding_url in H.

Ltac finalize_unfold :=
  unfold Config.finalize_config, Config.local_sandbox_path,
    Config.rewrite_mount_path, Config.default_embedding_url.

Ltac finalize_cbn_in H :=
  cbn -[String.eqb Config.split_colon Config.replace Py.index] in H.

Ltac finalize_cbn :=
  cbn -[String.eqb Config.split_colon Config.replace Py.index].

(** X15. Finalizing twice is the same as finalizing once, provided the
    sandbox is not local or no rewrite rule is set (with both, the second
    call would copy the rewritten mount path into the sandbox path). *)
Theorem finalize_config_idempotent (cwd : string) (config : Config.AppConfig) :
  String.eqb (Config.sandbox_type config) "local" = false
  \/ Config.truthy (Config.workspace_mount_rewrite config) = false ->
  Config.finalize_config cwd (Config.finalize_config cwd config).2
  = Config.finalize_config cwd config.
Proof.
  destruct config as [[bu ebu] wb wmp wmps rw cd st uhn].
  unfold Config.truthy.
  cbn [Config.sandbox_type Config.workspace_mount_rewrite].
  intros Hcond.
  destruct (Config.finalize_config cwd (Config.mkApp _ _ _ _ _ _ _ _))
    as [r c'] eqn:Hin. cbn [snd].
  finalize_unfold_in Hin.
  destruct (String.eqb st "local") eqn:Hlocal;
    destruct (String.eqb cd EmptyString) eqn:Hcd;
    destruct ebu as [ebu|]; destruct bu as [bu|];
    finalize_cbn_in Hin; rewrite ?Hlocal in Hin; finalize_cbn_in Hin.
  all: destruct rw as [rw|].
  all: try (destruct (String.eqb rw EmptyString) eqn:Hrw).
  all: try (destruct Hcond as [Hcond|Hcond]; discriminate).
  all: try (destruct (Py.index (Config.split_colon rw) 0) as [e0|part0] eqn:H0).
  all: try (destruct (Py.index (Config.split_colon rw) 1) as [e1|part1] eqn:H1).
  all: finalize_cbn_in Hin;
    try (rewrite Hrw in Hin); finalize_cbn_in Hin;
    try (rewrite H0 in Hin); finalize_cbn_in Hin;
    try (rewrite H1 in Hin); finalize_cbn_in Hin;
    rewrite ?Hcd in Hin;
    injection Hin as <- <-;
    finalize_unfold; finalize_cbn;
    rewrite ?Hlocal; finalize_cbn;
    try (rewrite Hrw); finalize_cbn;
    try (rewrite H0); finalize_cbn;
    try (rewrite H1); finalize_cbn;
    rewrite ?Hcd; reflexivity.
Qed.

(** ** The further properties on concrete inputs *)

(** After the first step of [twice], a log with a failed [run] changes the
    entry [s0] only: the entry [s1] is as before. *)
Lemma step_workflow_writes_previous_name_witness :
  workflow_data (step_workflow twice_at_1 run_failed).1.2 !! "s1"
  = workflow_data twice_at_1 !! "s1".
Proof.
  apply (step_workflow_writes_previous_name twice_at_1 run_failed
           [step_run; step_run] "s1"); [reflexivity|].
  intros prev _ Hprev. cbn in Hprev. injection Hprev as <-. discriminate.
Defined.

Lemma run_keeps_invariants_witness :
  0 <= workflow_step
         (run twice_agent [quiet; run_failed; run_succeeded; quiet; quiet]).2
    <= 2
  /\ data_of_passed_steps [step_run; step_run]
       (run twice_agent [quiet; run_failed; run_succeeded; quiet; quiet]).2.
Proof.
  apply (run_keeps_invariants twice "do it" twice_agent [step_run; step_run]
           [quiet; run_failed; run_succeeded; quiet; quiet]); reflexivity.
Defined.

(** [runner] after its prompt step: the log reports a failed command, and
    validation of the prompt step passes without a write. *)
Lemma prompt_step_is_not_validated_witness :
  update_previous_workflow_step (with_workflow_step runner_agent 2) run_failed
  = (inr true, with_workflow_step runner_agent 2, run_failed).
Proof.
  apply (prompt_step_is_not_validated (with_workflow_step runner_agent 2)
           run_failed [step_run; step_say_done] step_say_done
           (<["prompt" := VStr "say done"]> ∅));
    first [reflexivity | cbn; lia].
Defined.

(** A procedure whose first step has the action [run] and no name: once the
    log holds a [run] command the second call raises [KeyError]. *)
Lemma nameless_step_key_error_witness :
  step_workflow
    (mkAgent (mkDefinition (Some "twice")
                (Some [mkStep None (Some run_ls_dict); step_run]))
             "do it" ∅ 1 ∅)
    run_succeeded
  = (inl (KeyError "name"),
     mkAgent (mkDefinition (Some "twice")
                (Some [mkStep None (Some run_ls_dict); step_run]))
             "do it" ∅ 1 ∅,
     run_succeeded).
Proof.
  destruct (nameless_step_key_error
              (mkAgent (mkDefinition (Some "twice")
                          (Some [mkStep None (Some run_ls_dict); step_run]))
                       "do it" ∅ 1 ∅)
              run_succeeded
              [mkStep None (Some run_ls_dict); step_run]
              (mkStep None (Some run_ls_dict)) run_ls_dict (VStr "run"))
    as [_ Hcall]; [first [reflexivity | cbn; lia] ..|].
  apply Hcall. reflexivity.
Defined.

Lemma init_delegates_witness :
  (exists name,
     def_name twice = Some name
     /\ is_Some (all_microagents !! name)
     /\ delegates twice_agent !! name = None
     /\ (forall other, other <> name ->
           delegates twice_agent !! other = all_microagents !! other)
     /\ workflow_step twice_agent = 0
     /\ workflow_data twice_agent = ∅)
  /\ __init__ (mkDefinition (Some "stranger") None) "do it"
     = inl (KeyError "stranger").
Proof.
  split.
  - apply (init_delegates twice "do it"). reflexivity.
  - apply (init_delegates (mkDefinition (Some "stranger") None) "do it");
      reflexivity.
Defined.


(** A controller on which everything succeeds, and one on which the push
    fails. *)
Lemma push_succeeds_iff_all_succeed_witness :
  Github.succeeded
    (Github.run (Github.mkPush "me" "proj" "main") (Some "tok")
       ["a"; "b"; "c"; "d"; "e"]
       (fun _ _ => Github.CmdOutputObservation 0 "ok")).1 = true.
Proof.
  apply (push_succeeds_iff_all_succeed (Github.mkPush "me" "proj" "main")
           (Some "tok") ["a"; "b"; "c"; "d"; "e"]
           (fun _ _ => Github.CmdOutputObservation 0 "ok")).
  exists "tok". repeat split. discriminate.
Defined.

Lemma push_removes_the_remote_it_added_witness :
  (Github.run (Github.mkPush "me" "proj" "main") (Some "tok")
     ["a"; "b"; "c"; "d"; "e"]
     (fun history _ =>
        Github.CmdOutputObservation (if decide (length history = 1%nat) then 1 else 0)
                                    "out")).2
  = ["git remote add opendevin_temp_abcde https://tok@github.com/me/proj.git";
     "git push opendevin_temp_abcde main";
     "git remote remove opendevin_temp_abcde"].
Proof.
  apply (push_removes_the_remote_it_added (Github.mkPush "me" "proj" "main")
           "tok" ["a"; "b"; "c"; "d"; "e"]
           (fun history _ =>
              Github.CmdOutputObservation
                (if decide (length history = 1%nat) then 1 else 0) "out"));
    [discriminate | reflexivity].
Defined.

(** [LLMConfig(model='gpt-4')] on an existing instance. *)
Lemma singleton_call_updates_in_place_witness :
  exists updated,
    Config.Singleton_call (fun _ _ instances => (inl (TypeError "unused"), instances))
      "LLMConfig" [VInt 7] [("model", VStr "gpt-4")]
      (<["LLMConfig" := <["model" := VStr "gpt-3.5"]> (<["num_retries" := VInt 5]> ∅)]> ∅)
    = (inr updated, <["LLMConfig" := updated]>
                      (<["LLMConfig" := <["model" := VStr "gpt-3.5"]>
                                          (<["num_retries" := VInt 5]> ∅)]> ∅))
    /\ updated !! "model" = Some (VStr "gpt-4")
    /\ updated !! "num_retries" = Some (VInt 5).
Proof.
  destruct (singleton_call_updates_in_place
              (fun _ _ instances => (inl (TypeError "unused"), instances))
              "LLMConfig" [VInt 7] [("model", VStr "gpt-4")]
              (<["LLMConfig" := <["model" := VStr "gpt-3.5"]>
                                  (<["num_retries" := VInt 5]> ∅)]> ∅)
              (<["model" := VStr "gpt-3.5"]> (<["num_retries" := VInt 5]> ∅)))
    as (updated & Hcall & Hset & Hkeep & _).
  - reflexivity.
  - cbn. repeat constructor. intros Hin. now apply elem_of_nil in Hin.
  - exists updated. split; [exact Hcall|]. split.
    + apply Hset. apply list_elem_of_here.
    + rewrite Hkeep; [reflexivity|].
      cbn. intros Hin. apply elem_of_cons in Hin as [Hin|Hin];
        [discriminate | now apply elem_of_nil in Hin].
Defined.

Lemma singleton_call_idempotent_witness :
  Config.Singleton_call (fun _ _ instances => (inl (TypeError "unused"), instances))
    "LLMConfig" [] [("model", VStr "gpt-4")]
    (Config.Singleton_call
       (fun _ _ instances => (inl (TypeError "unused"), instances))
       "LLMConfig" [] [("model", VStr "gpt-4")]
       (<["LLMConfig" := <["model" := VStr "gpt-3.5"]> ∅]> ∅)).2
  = Config.Singleton_call
      (fun _ _ instances => (inl (TypeError "unused"), instances))
      "LLMConfig" [] [("model", VStr "gpt-4")]
      (<["LLMConfig" := <["model" := VStr "gpt-3.5"]> ∅]> ∅).
Proof.
  apply (singleton_call_idempotent
           (fun _ _ instances => (inl (TypeError "unused"), instances))
           "LLMConfig" [] [] [("model", VStr "gpt-4")]
           (<["LLMConfig" := <["model" := VStr "gpt-3.5"]> ∅]> ∅)
           (<["model" := VStr "gpt-3.5"]> ∅)).
  - reflexivity.
  - cbn. repeat constructor. intros Hin. now apply elem_of_nil in Hin.
Defined.


(** A rewrite rule on an [ssh] sandbox. *)
Lemma finalize_config_idempotent_witness :
  Config.finalize_config "/home/u"
    (Config.finalize_config "/home/u"
       (Config.mkApp (Config.mkLLM (Some "http://llm") None) "/home/u/ws"
          "/home/u/ws" "/workspace" (Some "/home/u:/mnt") "/tmp/cache" "ssh"
          false)).2
  = Config.finalize_config "/home/u"
      (Config.mkApp (Config.mkLLM (Some "http://llm") None) "/home/u/ws"
         "/home/u/ws" "/workspace" (Some "/home/u:/mnt") "/tmp/cache" "ssh"
         false).
Proof.
  apply (finalize_config_idempotent "/home/u"
           (Config.mkApp (Config.mkLLM (Some "http://llm") None) "/home/u/ws"
              "/home/u/ws" "/workspace" (Some "/home/u:/mnt") "/tmp/cache"
              "ssh" false)).
  left. reflexivity.
Defined.

(** ** load_from_env *)

Section LoadFromEnvFacts.
Variable F : Type.
Variable py_int : string -> option Z.
Variable py_float : string -> option F.

Local Abbreviation field := (Config.field F).
Local Abbreviation set_attr := (Config.set_attr F py_int py_float).
Local Abbreviation load_from_env := (Config.load_from_env F py_int py_float).

(** Induction on a configuration and its nested configurations. *)
Lemma field_nested_ind (P : field -> Prop) :
  (forall name ty v, P (Config.Attr F name ty v)) ->
  (forall name sub, Forall P sub -> P (Config.Child F name sub)) ->
  forall f, P f.
Proof.
  intros Hattr Hchild. fix IH 1. intros [name ty v|name sub].
  - apply Hattr.
  - apply Hchild. induction sub as [|f sub IHsub]; constructor.
    + apply IH.
    + exact IHsub.
Qed.

Lemma map_set_attr_ext (g h : field -> field) (sub : list field) :
  Forall (fun f => g f = h f) sub -> map g sub = map h sub.
Proof. induction 1 as [|f sub Hf _ IH]; cbn; [reflexivity | now rewrite Hf, IH]. Qed.

Lemma set_attr_idempotent (env : gmap string string) (f : field) :
  forall prefix, set_attr env prefix (set_attr env prefix f) = set_attr env prefix f.
Proof.
  induction f as [name ty v|name sub IH] using field_nested_ind; intros prefix.
  - cbn [Config.set_attr].
    destruct (env !! Config.upper (prefix +:+ name)) as [value|] eqn:Henv;
      [destruct (Config.cast F py_int py_float ty value) eqn:Hcast|];
      cbn [Config.set_attr]; rewrite Henv; try rewrite Hcast; reflexivity.
  - cbn [Config.set_attr]. f_equal. rewrite map_map.
    apply map_set_attr_ext. eapply Forall_impl; [exact IH|].
    intros f Hf. apply Hf.
Qed.

(** X16. Loading the same environment twice is the same as loading it once:
    every setting, at any depth, ends with the value the first load gave
    it. *)
Theorem load_from_env_idempotent (config : list field)
    (env : gmap string string) :
  load_from_env (load_from_env config env) env = load_from_env config env.
Proof.
  unfold Config.load_from_env, Config.set_attr_from_env. rewrite map_map.
  apply map_set_attr_ext, Forall_forall. intros f _. apply set_attr_idempotent.
Qed.

Lemma set_attr_shape (env : gmap string string) (f : field) :
  forall prefix, Config.shape F (set_attr env prefix f) = Config.shape F f.
Proof.
  induction f as [name ty v|name sub IH] using field_nested_ind; intros prefix.
  - cbn [Config.set_attr].
    destruct (env !! Config.upper (prefix +:+ name)) as [value|];
      [destruct (Config.cast F py_int py_float ty value)|]; reflexivity.
  - cbn [Config.set_attr Config.shape]. f_equal. rewrite map_map.
    apply map_set_attr_ext. eapply Forall_impl; [exact IH|].
    intros f Hf. apply Hf.
Qed.

(** X17. Loading from the environment changes values only: no setting is
    added, removed, renamed or given another annotation, at any depth,
    whatever the environment holds. *)
Theorem load_from_env_keeps_shape (config : list field)
    (env : gmap string string) :
  map (Config.shape F) (load_from_env config env) = map (Config.shape F) config.
Proof.
  unfold Config.load_from_env, Config.set_attr_from_env. rewrite map_map.
  apply map_set_attr_ext, Forall_forall. intros f _. apply set_attr_shape.
Qed.

Lemma set_attr_union (env1 env2 : gmap string string) (f : field) :
  env1 ##ₘ env2 ->
  forall prefix,
    set_attr env2 prefix (set_attr env1 prefix f)
    = set_attr (env1 ∪ env2) prefix f.
Proof.
  intros Hdisj.
  induction f as [name ty v|name sub IH] using field_nested_ind; intros prefix.
  - cbn [Config.set_attr].
    destruct (env1 !! Config.upper (prefix +:+ name)) as [value|] eqn:H1.
    + rewrite (lookup_union_Some_l env1 env2 _ value H1).
      assert (H2 : env2 !! Config.upper (prefix +:+ name) = None)
        by (eapply map_disjoint_Some_l; eassumption).
      destruct (Config.cast F py_int py_float ty value);
        cbn [Config.set_attr]; now rewrite H2.
    + cbn [Config.set_attr]. rewrite lookup_union_r by assumption. reflexivity.
  - cbn [Config.set_attr]. f_equal. rewrite map_map.
    apply map_set_attr_ext. eapply Forall_impl; [exact IH|].
    intros f Hf. apply Hf.
Qed.

(** X18. Loading from two sources that name no common variable, one after
    the other, is the same as loading once from both together, so the order
    of the two loads does not matter. *)
Theorem load_from_env_disjoint_sources (config : list field)
    (env1 env2 : gmap string string) :
  env1 ##ₘ env2 ->
  load_from_env (load_from_env config env1) env2
  = load_from_env config (env1 ∪ env2)
  /\ load_from_env (load_from_env config env1) env2
     = load_from_env (load_from_env config env2) env1.
Proof.
  intros Hdisj.
  assert (Hunion : forall e1 e2 : gmap string string, e1 ##ₘ e2 ->
            load_from_env (load_from_env config e1) e2
            = load_from_env config (e1 ∪ e2)).
  { intros e1 e2 He. unfold Config.load_from_env, Config.set_attr_from_env.
    rewrite map_map. apply map_set_attr_ext, Forall_forall. intros f _.
    now apply set_attr_union. }
  split; [now apply Hunion|].
  rewrite (Hunion env1 env2 Hdisj).
  rewrite (Hunion env2 env1) by now symmetry.
  now rewrite (map_union_comm env1 env2).
Qed.

End LoadFromEnvFacts.

(** A configuration with a nested [llm], loaded from [LLM_MODEL=gpt-4] and
    from [MAX_ITERATIONS=7]. *)
Lemma load_from_env_disjoint_sources_witness :
  Config.load_from_env unit (fun s => if String.eqb s "7" then Some 7 else None)
    (fun _ => None)
    (Config.load_from_env unit
       (fun s => if String.eqb s "7" then Some 7 else None) (fun _ => None)
       [Config.Child unit "llm"
          [Config.Attr unit "model" (Config.Plain Config.TStr)
             (Config.SStr unit "gpt-3.5")];
        Config.Attr unit "max_iterations" (Config.Plain Config.TInt)
          (Config.SInt unit 100)]
       {["LLM_MODEL" := "gpt-4"]})
    {["MAX_ITERATIONS" := "7"]}
  = [Config.Child unit "llm"
       [Config.Attr unit "model" (Config.Plain Config.TStr)
          (Config.SStr unit "gpt-4")];
     Config.Attr unit "max_iterations" (Config.Plain Config.TInt)
       (Config.SInt unit 7)].
Proof.
  destruct (load_from_env_disjoint_sources unit
              (fun s => if String.eqb s "7" then Some 7 else None)
              (fun _ => None)
              [Config.Child unit "llm"
                 [Config.Attr unit "model" (Config.Plain Config.TStr)
                    (Config.SStr unit "gpt-3.5")];
               Config.Attr unit "max_iterations" (Config.Plain Config.TInt)
                 (Config.SInt unit 100)]
              {["LLM_MODEL" := "gpt-4"]} {["MAX_ITERATIONS" := "7"]})
    as [Hunion _].
  - apply map_disjoint_singleton_l. reflexivity.
  - rewrite Hunion. reflexivity.
Defined.

(** ** After a rejection *)

Section RetryProperties.
Context `{Collaborators}.

(** One call on an unfinished procedure whose previous step is a named fixed
    action. *)
Lemma step_workflow_after_fixed (self : MicroAgent) (state : State)
    (wf : list StepDefinition) (prev : StepDefinition)
    (do_ : gmap string value) (expected : value) (name : string) :
  workflow_of self = inr wf ->
  0 < workflow_step self < Z.of_nat (length wf) ->
  wf !! Z.to_nat (workflow_step self - 1) = Some prev ->
  step_do prev = Some do_ ->
  do_ !! "action" = Some expected ->
  step_name prev = Some name ->
  validation self self state
  = (inr (forallb acceptable (matching prev (updated_info state))),
     with_workflow_data self
       (record_all name
          (through_first_failure (matching prev (updated_info state)))
          (workflow_data self)),
     state).
Proof.
  intros Hwf [Hpos Hlt] Hprev Hdo Hact Hname.
  unfold validation. destruct (Z.gtb_spec (workflow_step self) 0); [|lia].
  rewrite (update_previous_unfold self state wf prev) by assumption.
  now apply (update_loop_fixed prev do_ expected name).
Qed.

(** X19. A rejection does not end the run: the call that returns
    [AgentRejectAction] leaves the step index where it was, and a next call
    whose log holds only acceptable outcomes for the previous step goes on
    with the current step, here a fixed command, and increments the index. *)
Theorem rejection_is_not_final (self : MicroAgent) (failed accepted : State)
    (wf : list StepDefinition) (prev step : StepDefinition)
    (do_ : gmap string value) (expected : value) (name : string) (a : Action) :
  workflow_of self = inr wf ->
  0 < workflow_step self < Z.of_nat (length wf) ->
  wf !! Z.to_nat (workflow_step self - 1) = Some prev ->
  step_do prev = Some do_ ->
  do_ !! "action" = Some expected ->
  step_name prev = Some name ->
  wf !! Z.to_nat (workflow_step self) = Some step ->
  fixed_command step a ->
  forallb acceptable (matching prev (updated_info failed)) = false ->
  forallb acceptable (matching prev (updated_info accepted)) = true ->
  (step_workflow self failed).1.1 = inr AgentRejectAction
  /\ workflow_step (step_workflow self failed).1.2 = workflow_step self
  /\ (step_workflow (step_workflow self failed).1.2 accepted).1.1 = inr a
  /\ workflow_step (step_workflow (step_workflow self failed).1.2 accepted).1.2
     = workflow_step self + 1.
Proof.
  intros Hwf Hbounds Hprev Hdo Hact Hname Hstep (ds & Hds & Hcontains & Ha)
         Hfailed Haccepted.
  assert (Hfirst : step_workflow self failed
                   = (inr AgentRejectAction,
                      with_workflow_data self
                        (record_all name
                           (through_first_failure
                              (matching prev (updated_info failed)))
                           (workflow_data self)),
                      failed)).
  { rewrite (step_workflow_unfinished self failed wf) by (assumption || lia).
    rewrite (step_workflow_after_fixed self failed wf prev do_ expected name)
      by assumption.
    now rewrite Hfailed. }
  rewrite !Hfirst. cbn [fst snd].
  set (self1 := with_workflow_data self _).
  assert (Hsecond : step_workflow self1 accepted
                    = (inr a,
                       with_workflow_step
                         (with_workflow_data self1
                            (record_all name
                               (through_first_failure
                                  (matching prev (updated_info accepted)))
                               (workflow_data self1)))
                         (workflow_step self + 1),
                       accepted)).
  { rewrite (step_workflow_unfinished self1 accepted wf) by (assumption || exact (proj2 Hbounds)).
    rewrite (step_workflow_after_fixed self1 accepted wf prev do_ expected name)
      by assumption.
    rewrite Haccepted. subst self1. cbn [with_workflow_data workflow_step].
    rewrite (index_in_range wf _ step); [|lia | assumption].
    unfold perform. rewrite Hds. cbn [default from_option id]. rewrite Hcontains.
    unfold lift. now rewrite Ha. }
  rewrite !Hsecond. cbn. auto.
Qed.

End RetryProperties.

(** After the first step of [twice]: a failed [run] is rejected, and the
    same agent, fed a successful [run], goes on with the second step. *)
Lemma rejection_is_not_final_witness :
  (step_workflow twice_at_1 run_failed).1.1 = inr AgentRejectAction
  /\ (step_workflow (step_workflow twice_at_1 run_failed).1.2 run_succeeded).1.1
     = inr run_ls.
Proof.
  destruct (rejection_is_not_final twice_at_1 run_failed run_succeeded
              [step_run; step_run] step_run step_run run_ls_dict (VStr "run")
              "s0" run_ls)
    as (Hreject & _ & Hnext & _);
    [first [reflexivity | cbn; lia
           | exists run_ls_dict; repeat split; reflexivity] ..|].
  split; [exact Hreject | exact Hnext].
Defined.
